(** * TrulyFresh route and packing list generator (app.py)

    A shallow embedding of the data pipeline of [app.py]: the tables that
    [pd.read_csv] hands to [process_data], the classifier
    [determine_product_type], the packing aggregation of the upload handler,
    the two report builders and [format_excel_file].

    Conventions.
    - A Python [str] is the list of its code points ([pystr]).
    - A cell of a text column is [option pystr], a cell of a numeric column
      [option num]; [None] is pandas' NaN (a blank field of the CSV file).
      [read_csv] turns every empty field into NaN, so a text cell of the
      input is never the empty string.
    - A DataFrame is the list of its rows, each a record with one field per
      column; a column operation is a [map] over the rows or an [assign].
      The columns named by the code exist by typing, so the [KeyError] and
      the "Missing columns" [ValueError] of [process_data] have no
      counterpart on the tables; what lines 13-20 and 46-52 do with the
      names of the columns is modelled on lists of names ([clean_columns],
      [missing_cols]).
    - The tables are those [read_csv] returns with a text column as an
      object column of strings and NaN.  ([read_csv] gives a column of a
      file with rows another type when all its fields are blank or all are
      numbers; [.str] on such an Address or Items column raises
      [AttributeError] at lines 27 or 36, and the merge of line 40 raises
      [ValueError] on such a Title column.  Such files are not among the
      tables of [process_data]; a statement that says that something is
      computed without error names the columns that have to be object
      columns, see [object_column].)
    - Code that can raise returns a [result].
    - The code runs on pandas 1.x ([DataFrame.append] is gone in 2.0).
    - What the code takes from its libraries without the model saying how
      it is computed is a parameter of the model: the numbers of the
      numeric columns (float64) with [DataFrame.sum] and with the sixteen
      significant digits XlsxWriter writes of a number, [str.lower],
      XlsxWriter's check of a sheet name, and the footer openpyxl saves for
      the footer it has loaded. *)

From Stdlib Require Import ZArith NArith Lia String Ascii DecimalString DecimalN.
From Stdlib Require Import Sorting.Sorted Sorting.Permutation.
From stdpp Require Import prelude.

Local Open Scope Z_scope.

(* ===================================================================== *)
(** ** Python strings                                                     *)
(* ===================================================================== *)

Abbreviation codepoint := N (only parsing).
Abbreviation pystr := (list N) (only parsing).
Abbreviation cell := (option (list N)) (only parsing).

(** The bytes of a literal of this file, read as UTF-8 like the interpreter
    reads the literals of [app.py]. *)
Fixpoint bytes_of (s : string) : list N :=
  match s with
  | EmptyString => []
  | String a r => N_of_ascii a :: bytes_of r
  end.

Fixpoint utf8_decode (bs : list N) : pystr :=
  match bs with
  | [] => []
  | b :: r =>
    if (b <? 128)%N then b :: utf8_decode r
    else if (b <? 224)%N then
      match r with
      | c1 :: r' => ((b - 192) * 64 + (c1 - 128))%N :: utf8_decode r'
      | _ => []
      end
    else if (b <? 240)%N then
      match r with
      | c1 :: c2 :: r' =>
        ((b - 224) * 4096 + (c1 - 128) * 64 + (c2 - 128))%N :: utf8_decode r'
      | _ => []
      end
    else
      match r with
      | c1 :: c2 :: c3 :: r' =>
        ((b - 240) * 262144 + (c1 - 128) * 4096 + (c2 - 128) * 64 + (c3 - 128))%N
          :: utf8_decode r'
      | _ => []
      end
  end.

Definition py (s : string) : pystr := utf8_decode (bytes_of s).

(** [s[:n]] and [s[n:]] on a string. *)
Definition str_slice_to (n : nat) (s : pystr) : pystr := take n s.
Definition str_slice_from (n : nat) (s : pystr) : pystr := drop n s.

(** [sub in s]: [sub] occurs in [s] as a contiguous run. *)
Fixpoint starts_with (sub s : pystr) : bool :=
  match sub, s with
  | [], _ => true
  | _ :: _, [] => false
  | a :: sub', b :: s' => (a =? b)%N && starts_with sub' s'
  end.

Fixpoint contains (sub s : pystr) : bool :=
  starts_with sub s ||
  match s with
  | [] => false
  | _ :: s' => contains sub s'
  end.

(** [str.strip()]: the white space of Python 3 ([str.isspace]) is taken
    from both ends. *)
Definition is_space (c : codepoint) : bool :=
  ((9 <=? c) && (c <=? 13) || (28 <=? c) && (c <=? 32) || (c =? 133) || (c =? 160)
   || (c =? 5760) || (8192 <=? c) && (c <=? 8202) || (c =? 8232) || (c =? 8233)
   || (c =? 8239) || (c =? 8287) || (c =? 12288))%N.

Fixpoint drop_while {A} (p : A -> bool) (l : list A) : list A :=
  match l with
  | x :: r => if p x then drop_while p r else l
  | [] => []
  end.

Definition lstrip (s : pystr) : pystr := drop_while is_space s.
Definition rstrip (s : pystr) : pystr := reverse (drop_while is_space (reverse s)).
Definition strip (s : pystr) : pystr := rstrip (lstrip s).

(** ** Decimal digits

    [\d] of [re] (on a [str] pattern) and [int] both accept the decimal
    digits of Unicode (category Nd).  They come in blocks of ten
    consecutive code points, zero first; [nd_zeros] lists the zeros
    (Unicode 14.0.0). *)
Definition nd_zeros : list N :=
  [48; 1632; 1776; 1984; 2406; 2534; 2662; 2790; 2918; 3046; 3174; 3302;
   3430; 3558; 3664; 3792; 3872; 4160; 4240; 6112; 6160; 6470; 6608; 6784;
   6800; 6992; 7088; 7232; 7248; 42528; 43216; 43264; 43472; 43504; 43600;
   44016; 65296; 66720; 68912; 69734; 69872; 69942; 70096; 70384; 70736;
   70864; 71248; 71360; 71472; 71904; 72016; 72784; 73040; 73120; 92768;
   92864; 93008; 120782; 120792; 120802; 120812; 120822; 123200; 123632;
   125264; 130032]%N.

Fixpoint digit_in (zeros : list N) (c : codepoint) : option Z :=
  match zeros with
  | [] => None
  | z :: zs =>
    if ((z <=? c) && (c <? z + 10))%N then Some (Z.of_N (c - z))
    else digit_in zs c
  end.

Definition digit_value (c : codepoint) : option Z := digit_in nd_zeros c.
Definition is_digit (c : codepoint) : bool := bool_decide (is_Some (digit_value c)).

Fixpoint take_while {A} (p : A -> bool) (l : list A) : list A :=
  match l with
  | x :: r => if p x then x :: take_while p r else []
  | [] => []
  end.

(** [re.search('(\d+)', s)]: the leftmost, longest run of digits, or no
    match. *)
Fixpoint search_digits (s : pystr) : option pystr :=
  match s with
  | [] => None
  | c :: r => if is_digit c then Some (c :: take_while is_digit r) else search_digits r
  end.

(** The value [int] gives to a run of digits read so far as [acc]. *)
Fixpoint int_digits (acc : Z) (s : pystr) : option Z :=
  match s with
  | [] => Some acc
  | c :: r =>
    match digit_value c with
    | Some d => int_digits (10 * acc + d) r
    | None => None
    end
  end.

Example py_ascii : py "2Or" = [50; 79; 114]%N.
Proof. reflexivity. Qed.

Example py_cjk : py "蔬菜水果类" = [34092; 33756; 27700; 26524; 31867]%N.
Proof. reflexivity. Qed.

(** [str(int)] for a non-negative count, and [str] of a cell ([str(nan)] is
    the text nan). *)
Definition str_of_int (z : Z) : pystr :=
  bytes_of (NilEmpty.string_of_uint (N.to_uint (Z.to_N z))).

Definition str (c : cell) : pystr :=
  match c with
  | Some s => s
  | None => py "nan"
  end.

(* ===================================================================== *)
(** ** Exceptions                                                         *)
(* ===================================================================== *)

Inductive exn :=
| ValueError          (* astype(int) on NaN or on text that is no number *)
| WorksheetNameError. (* XlsxWriter refuses the sheet name *)

Inductive result (A : Type) :=
| Ok (a : A)
| Raise (e : exn).
Arguments Ok {A} a.
Arguments Raise {A} e.

Definition bind {A B} (m : result A) (k : A -> result B) : result B :=
  match m with
  | Ok a => k a
  | Raise e => Raise e
  end.

Notation "'do' x <- m ; k" := (bind m (fun x => k))
  (at level 10, x name, m at level 100, k at level 200).

(** Runs [f] over a column and stops at the first exception. *)
Fixpoint traverse {A B} (f : A -> result B) (l : list A) : result (list B) :=
  match l with
  | [] => Ok []
  | x :: r => do y <- f x; do ys <- traverse f r; Ok (y :: ys)
  end.

(* ===================================================================== *)
(** ** Orders: how pandas sorts keys                                      *)
(* ===================================================================== *)

(** Python compares strings code point by code point, a proper prefix
    first. *)
Fixpoint str_compare (a b : pystr) : comparison :=
  match a, b with
  | [], [] => Eq
  | [], _ :: _ => Lt
  | _ :: _, [] => Gt
  | x :: a', y :: b' =>
    match (x ?= y)%N with
    | Eq => str_compare a' b'
    | c => c
    end
  end.

(** [sort_values] puts NaN after every value ([na_position='last']). *)
Definition cell_compare (a b : cell) : comparison :=
  match a, b with
  | Some x, Some y => str_compare x y
  | Some _, None => Lt
  | None, Some _ => Gt
  | None, None => Eq
  end.

Definition lex (c d : comparison) : comparison :=
  match c with
  | Eq => d
  | _ => c
  end.

Definition pair_compare {A B} (ca : A -> A -> comparison) (cb : B -> B -> comparison)
    (p q : A * B) : comparison :=
  lex (ca p.1 q.1) (cb p.2 q.2).

(** What the sorting lemmas need of a comparison. *)
Class CmpOrder {A} (cmp : A -> A -> comparison) := {
  cmp_eq x y : cmp x y = Eq -> x = y;
  cmp_opp x y : cmp y x = CompOpp (cmp x y);
  cmp_lt_trans x y z : cmp x y = Lt -> cmp y z = Lt -> cmp x z = Lt
}.

Definition cmp_le {A} (cmp : A -> A -> comparison) (x y : A) : Prop := cmp x y <> Gt.
Definition cmp_lt {A} (cmp : A -> A -> comparison) (x y : A) : Prop := cmp x y = Lt.

(* ===================================================================== *)
(** ** DataFrame operations                                               *)
(* ===================================================================== *)

(** [Series.ffill]: a NaN takes the last value seen above it. *)
Fixpoint ffill_from {A} (last : option A) (col : list (option A)) : list (option A) :=
  match col with
  | [] => []
  | x :: r =>
    let v := match x with Some _ => x | None => last end in
    v :: ffill_from v r
  end.

Definition ffill {A} (col : list (option A)) : list (option A) := ffill_from None col.

(** [df[c] = values]: the column is replaced row by row. *)
Definition assign {R A} (set : A -> R -> R) (values : list A) (df : list R) : list R :=
  zip_with set values df.

(** [pd.merge(left, right, on=key, how='left')]: the rows of [left] in
    order, each once per row of [right] with the same key (in the order of
    [right]), or once with no partner.  pandas matches a NaN key with a NaN
    key, as equality of cells does here. *)
Definition matches {R} (rkey : R -> cell) (k : cell) (right : list R) : list R :=
  filter (fun y => rkey y = k) right.

Definition merge_row {L R} (lkey : L -> cell) (rkey : R -> cell) (right : list R)
    (x : L) : list (L * option R) :=
  match matches rkey (lkey x) right with
  | [] => [(x, None)]
  | ms => fmap (fun y => (x, Some y)) ms
  end.

Definition merge_left {L R} (lkey : L -> cell) (rkey : R -> cell)
    (left : list L) (right : list R) : list (L * option R) :=
  left ≫= merge_row lkey rkey right.

(** [sort_values(by=...)]: a stable sort on the key. *)
Fixpoint insert_by {A K} (cmp : K -> K -> comparison) (key : A -> K) (x : A)
    (l : list A) : list A :=
  match l with
  | [] => [x]
  | y :: r =>
    match cmp (key x) (key y) with
    | Gt => y :: insert_by cmp key x r
    | _ => x :: l
    end
  end.

Definition sort_values {A K} (cmp : K -> K -> comparison) (key : A -> K)
    (df : list A) : list A :=
  foldr (insert_by cmp key) [] df.

(** The keys of a [groupby]: each distinct key once, in ascending order
    ([sort=True]). *)
Fixpoint insert_key {K} (cmp : K -> K -> comparison) (k : K) (l : list K) : list K :=
  match l with
  | [] => [k]
  | y :: r =>
    match cmp k y with
    | Lt => k :: l
    | Eq => l
    | Gt => y :: insert_key cmp k r
    end
  end.

Definition group_keys {K} (cmp : K -> K -> comparison) (keys : list K) : list K :=
  foldr (insert_key cmp) [] keys.

(** [df.groupby(key)]: the groups in key order, each with its rows in the
    order of the frame; a row whose key is NaN belongs to no group
    ([dropna=True]). *)
Definition group_rows {A K} `{EqDecision K} (key : A -> option K) (k : K)
    (df : list A) : list A :=
  filter (fun r => key r = Some k) df.

Definition groupby {A K} `{EqDecision K} (cmp : K -> K -> comparison)
    (key : A -> option K) (df : list A) : list (K * list A) :=
  fmap (fun k => (k, group_rows key k df)) (group_keys cmp (omap key df)).

(** int64 arithmetic of numpy: a sum wraps around. *)
Definition wrap64 (z : Z) : Z := (z + 2 ^ 63) mod 2 ^ 64 - 2 ^ 63.
Definition sumZ (l : list Z) : Z := foldr Z.add 0 l.
Definition sum_int64 (l : list Z) : Z := wrap64 (sumZ l).

(** ** Numbers in a sheet

    The rows of a sheet are those of the frame after [append], whose
    numeric columns are float64.  XlsxWriter writes a number with
    [%.16G], sixteen significant digits; openpyxl reads the digits back, as
    an [int] when they are written without exponent and as a [float]
    otherwise.  On integers this is computed here. *)

(** [n / d] rounded to the nearest integer, a tie to the even one
    ([d > 0]). *)
Definition round_half_even (n d : Z) : Z :=
  let q := n / d in
  let r := n mod d in
  if 2 * r <? d then q
  else if d <? 2 * r then q + 1
  else if Z.even q then q else q + 1.

(** The float64 nearest to an integer: 53 significant bits. *)
Definition float64_of_int (z : Z) : Z :=
  let e := Z.log2 (Z.abs z) - 52 in
  if e <=? 0 then z
  else Z.sgn z * (round_half_even (Z.abs z) (2 ^ e) * 2 ^ e).

(** [%.16G] of an integer float64, as a number: sixteen significant
    decimal digits. *)
Definition sixteen_digits (z : Z) : Z :=
  if Z.abs z <? 10 ^ 16 then z
  else
    let k := Z.of_nat (length (str_of_int (Z.abs z))) - 16 in
    Z.sgn z * (round_half_even (Z.abs z) (10 ^ k) * 10 ^ k).

(** What [load_workbook] reads in the cell XlsxWriter wrote for an int64 of
    the frame. *)
Definition xlsx_integer (z : Z) : Z :=
  float64_of_int (sixteen_digits (float64_of_int z)).

(* ===================================================================== *)
(** ** The tables                                                         *)
(* ===================================================================== *)

(** The route manifest as [read_csv] gives it, after the header has been
    stripped and renamed (lines 10-20).  [num] is the type of the numbers of
    the numeric columns. *)
Module Route.
Record t {num : Type} := mk {
  Route : cell;
  Driver : cell;
  Stop : option num;
  Address : cell;
  Shipping_name : cell;
  Items : cell;
  Note : cell;
  time : option num;
  dist : option num;
  Total_items : option num
}.
Arguments t : clear implicits.
Arguments mk {num}.

Definition set_Route {num} (v : cell) (r : t num) : t num :=
  mk v (Driver r) (Stop r) (Address r) (Shipping_name r) (Items r) (Note r)
     (time r) (dist r) (Total_items r).
Definition set_Driver {num} (v : cell) (r : t num) : t num :=
  mk (Route r) v (Stop r) (Address r) (Shipping_name r) (Items r) (Note r)
     (time r) (dist r) (Total_items r).
Definition set_Stop {num} (v : option num) (r : t num) : t num :=
  mk (Route r) (Driver r) v (Address r) (Shipping_name r) (Items r) (Note r)
     (time r) (dist r) (Total_items r).
Definition set_Address {num} (v : cell) (r : t num) : t num :=
  mk (Route r) (Driver r) (Stop r) v (Shipping_name r) (Items r) (Note r)
     (time r) (dist r) (Total_items r).
Definition set_Shipping_name {num} (v : cell) (r : t num) : t num :=
  mk (Route r) (Driver r) (Stop r) (Address r) v (Items r) (Note r)
     (time r) (dist r) (Total_items r).
End Route.

(** The route table with the two columns of lines 36-37. *)
Module Item.
Record t {num : Type} := mk {
  route : Route.t num;
  Lineitem_name : cell;
  Item_Count : cell
}.
Arguments t : clear implicits.
Arguments mk {num}.
End Item.

(** A row of the product file: the four columns the code selects, and
    whatever other columns the file has. *)
Module Product.
Record t := mk {
  Title : cell;
  Tags : cell;
  Variant_SKU : cell;
  Vendor : cell;
  others : list (pystr * cell)
}.
End Product.

(** A row of [df_plist] (lines 31-33). *)
Module Plist.
Record t := mk {
  Title : cell;
  Tags : cell;
  Variant_SKU : cell;
  Vendor : cell;
  Product_type : pystr;
  Lineitem_name : cell
}.
End Plist.

(** A row of the merged route table with its [Count] column (lines 40-43):
    the columns of [df_plist] are those of [product], all NaN when the row
    has no partner. *)
Module Merged.
Record t {num : Type} := mk {
  item : Item.t num;
  product : option Plist.t;
  Count : cell
}.
Arguments t : clear implicits.
Arguments mk {num}.
End Merged.

(** A row of [route_df[final_cols]], what [process_data] returns. *)
Module Final.
Record t {num : Type} := mk {
  Driver : cell;
  Stop : option num;
  Shipping_name : cell;
  Address : cell;
  Count : cell;
  Item_Count : cell;
  Lineitem_name : cell;
  Total_items : option num;
  Note : cell;
  time : option num;
  dist : option num
}.
Arguments t : clear implicits.
Arguments mk {num}.
End Final.

(** A row of the grouped packing table (lines 132-133). *)
Module Summed.
Record t := mk {
  Driver : pystr;
  Lineitem_name : pystr;
  Count : Z;
  Count_New : pystr
}.
End Summed.

(** A row of [packing_df] after its merge with [df_plist] (line 134). *)
Module Packing.
Record t := mk {
  summed : Summed.t;
  product : option Plist.t
}.
Definition Driver (p : t) : pystr := Summed.Driver (summed p).
Definition Lineitem_name (p : t) : pystr := Summed.Lineitem_name (summed p).
Definition Count (p : t) : Z := Summed.Count (summed p).
Definition Count_New (p : t) : pystr := Summed.Count_New (summed p).
Definition Product_type (p : t) : cell := Plist.Product_type <$> product p.
Definition Variant_SKU (p : t) : cell := product p ≫= Plist.Variant_SKU.
Definition Vendor (p : t) : cell := product p ≫= Plist.Vendor.
End Packing.

(* ===================================================================== *)
(** ** Sample tables                                                      *)
(* ===================================================================== *)

(** Concrete inputs (numbers in [Z]) on which the statements below are
    run. *)
Definition sample_route (driver items : option (list N)) : Route.t Z :=
  Route.mk (Some (py "R1")) driver (Some 1) (Some (py "12 Main St, Springfield"))
           (Some (py "Ann")) items None (Some 5) (Some 3) (Some 2).

Definition sample_blank_route (items : option (list N)) : Route.t Z :=
  Route.mk None None None None None items None None None None.

Definition sample_product (title tags : string) : Product.t :=
  Product.mk (Some (py title)) (Some (py tags)) (Some (py "SKU-1")) (Some (py "Farm")) [].

Definition sample_item (name : string) : Item.t Z :=
  Item.mk (sample_route (Some (py "Bob")) None) (Some (py name)) (Some (py "2")).

(** A week of three rows, the second with the blank cells the fill
    closes, and two product lists: one with distinct titles, one that lists
    a title twice. *)
Definition sample_week : list (Route.t Z) :=
  [sample_route (Some (py "Bob")) (Some (py "2x Apples"));
   sample_blank_route (Some (py "3x Apples"));
   sample_route (Some (py "Al")) (Some (py "1x Pears"))].

Definition sample_catalog : list Product.t :=
  [sample_product "Apples" "蔬菜水果类"; sample_product "Pears" "常温类"].

Definition sample_catalog_twice : list Product.t :=
  [sample_product "Apples" "蔬菜水果类"; sample_product "Apples" "冰冻冷藏类"].

(** The row [process_data] makes of the third row of the week. *)
Definition sample_final : Final.t Z :=
  Final.mk (Some (py "Al")) (Some 1) (Some (py "Ann")) (Some (py "12 Main St"))
           (Some []) (Some (py "1")) (Some (py "Pears")) (Some 2) None (Some 5) (Some 3).

(** A writer that takes every sheet name. *)
Definition accept_all (existing : list (list N)) (name : list N) : bool := true.

(** The parameters of the model on the samples, whose numbers are integers
    that float64 holds exactly: the float64 sum of such numbers is their
    sum when float64 holds that too, and a number is written as
    [xlsx_integer] has it.  No statement on the samples reads a footer;
    [keep_footer] stands for openpyxl's writing of it. *)
Definition exact_sum (col : list (option Z)) : Z := sumZ (omap id col).
Definition keep_footer (footer : list N) : list N := footer.

(** A row whose address begins with a comma. *)
Definition sample_comma_route : Route.t Z :=
  Route.set_Address (Some (py ", Springfield"))
                    (sample_route (Some (py "Bob")) (Some (py "2x Apples"))).

(** Two rows of one driver with a long drive. *)
Definition sample_long_drive : list (Route.t Z) :=
  [Route.mk (Some (py "R1")) (Some (py "Bob")) (Some 1)
            (Some (py "12 Main St, Springfield")) (Some (py "Ann"))
            (Some (py "2x Apples")) None (Some 5000000000000001) (Some 3) (Some 2);
   Route.mk (Some (py "R1")) (Some (py "Bob")) (Some 2)
            (Some (py "7 Mill Lane, Shelbyville")) (Some (py "Cy"))
            (Some (py "1x Pears")) None (Some 5000000000000001) (Some 4) (Some 1)].

(** A writer that takes no sheet name. *)
Definition refuse_all (existing : list (list N)) (name : list N) : bool := false.

(** A row without driver, and a product list that does not have the pears
    of the sample week. *)
Definition sample_no_driver : Route.t Z :=
  Route.mk None None None (Some (py "7 Mill Lane, Shelbyville")) None
           (Some (py "3x Apples")) None None None None.

Definition sample_catalog_apples : list Product.t :=
  [sample_product "Apples" "蔬菜水果类"].

(* ===================================================================== *)
(** ** The program                                                        *)
(* ===================================================================== *)

(** The ASCII part of [str.lower], to run the model on ASCII and CJK
    text. *)
Definition ascii_lower (s : pystr) : pystr :=
  fmap (fun c => if ((65 <=? c) && (c <=? 90))%N then (c + 32)%N else c) s.

Section App.

(** The numbers of the numeric columns, and the library functions the code
    calls on values that are not computed here:
    - [df_sum], [DataFrame.sum] of a numeric column (numpy's sum of the
      float64 values that are no NaN);
    - [xlsx_number], the number [load_workbook] reads in the cell XlsxWriter
      wrote for a number of the frame (its sixteen significant digits);
    - [lower], [str.lower];
    - [sheetname_ok], XlsxWriter's check of a new sheet's name against the
      names the workbook already has (length, forbidden characters,
      duplicates);
    - [resave_footer], the footer openpyxl saves for a footer it has
      loaded (it parses font, size and text, and writes them anew). *)
Context {num : Type}.
Variable df_sum : list (option num) -> num.
Variable xlsx_number : num -> num.
Variable lower : pystr -> pystr.
Variable sheetname_ok : list pystr -> pystr -> bool.
Variable resave_footer : pystr -> pystr.

Set Default Proof Using "Type".

(** Drops the parameters of the section a statement does not mention, so
    that no automation carries them into its proof. *)
Ltac params :=
  try clear resave_footer; try clear sheetname_ok; try clear lower;
  try clear xlsx_number; try clear df_sum; try clear num.

(** *** process_data *)

(** Line 13: [route_df.columns.str.strip()] strips every column name. *)
Definition strip_columns (columns : list pystr) : list pystr := fmap strip columns.

(** Lines 16-20: [rename(columns={...})] renames the names found in the
    dictionary and keeps the others. *)
Definition rename_label (c : pystr) : pystr :=
  if decide (c = py "Note (Order)") then py "Note"
  else if decide (c = py "Drive time (minutes)") then py "time"
  else if decide (c = py "Distance (km)") then py "dist"
  else c.

Definition rename_columns (columns : list pystr) : list pystr := fmap rename_label columns.

(** The column names after lines 13-20. *)
Definition clean_columns (columns : list pystr) : list pystr :=
  rename_columns (strip_columns columns).

(** Lines 22-24: [route_df[fill_cols] = route_df[fill_cols].ffill()]. *)
Definition ffill_cols (route_df : list (Route.t num)) : list (Route.t num) :=
  let df := assign Route.set_Route (ffill (fmap Route.Route route_df)) route_df in
  let df := assign Route.set_Driver (ffill (fmap Route.Driver route_df)) df in
  let df := assign Route.set_Stop (ffill (fmap Route.Stop route_df)) df in
  let df := assign Route.set_Address (ffill (fmap Route.Address route_df)) df in
  assign Route.set_Shipping_name (ffill (fmap Route.Shipping_name route_df)) df.

(** Line 27: [.str.split(',').str[0]] keeps the text before the first
    comma (code point 44) and leaves NaN as it is. *)
Definition before_comma (s : pystr) : pystr :=
  take_while (fun c => negb (c =? 44)%N) s.

Definition address_processing (route_df : list (Route.t num)) : list (Route.t num) :=
  assign Route.set_Address
    (ffill (fmap (fun r => before_comma <$> Route.Address r) route_df)) route_df.

(** The route table after lines 22-27. *)
Definition filled (route_data : list (Route.t num)) : list (Route.t num) :=
  address_processing (ffill_cols route_data).

(** Lines 56-64: [str(tag).lower()], then the keywords in their order. *)
Definition determine_product_type (tag : cell) : pystr :=
  let tag := lower (str tag) in
  if contains (py "蔬菜水果类") tag || contains (py "独家订阅包") tag then py "vege & fruit"
  else if contains (py "冰冻冷藏类") tag then py "cool"
  else if contains (py "常温类") tag then py "general"
  else py "other".

(** Lines 30-33: the four columns, [dropna(subset=['Tags'])], the product
    type, and the join key. *)
Definition plist_row (p : Product.t) : Plist.t :=
  Plist.mk (Product.Title p) (Product.Tags p) (Product.Variant_SKU p) (Product.Vendor p)
           (determine_product_type (Product.Tags p)) (Product.Title p).

Definition prepare_plist (products_data : list Product.t) : list Plist.t :=
  fmap plist_row (filter (fun p => Product.Tags p <> None) products_data).

(** Lines 36-37: [Items.str[3:]] and [Items.str[:3].str.extract('(\d+)')]. *)
Definition lineitem_name (items : cell) : cell := str_slice_from 3 <$> items.
Definition item_count (items : cell) : cell :=
  items ≫= fun s => search_digits (str_slice_to 3 s).

Definition extract_items (route_df : list (Route.t num)) : list (Item.t num) :=
  fmap (fun r => Item.mk r (lineitem_name (Route.Items r)) (item_count (Route.Items r)))
      route_df.

(** Line 40: [pd.merge(route_df, df_plist, on='Lineitem name', how='left')]. *)
Definition merge_routes (route_df : list (Item.t num)) (df_plist : list Plist.t)
    : list (Item.t num * option Plist.t) :=
  merge_left Item.Lineitem_name Plist.Lineitem_name route_df df_plist.

(** Line 43: [np.where(Item Count != "1", Item Count, '')]; NaN differs
    from the text 1. *)
Definition display_count (item_count : cell) : cell :=
  if decide (item_count = Some (py "1")) then Some [] else item_count.

Definition add_Count (row : Item.t num * option Plist.t) : Merged.t num :=
  Merged.mk row.1 row.2 (display_count (Item.Item_Count row.1)).

(** Lines 46-54: [route_df[final_cols]]; the columns of [df_plist], Route
    and Items are not among them. *)
Definition final_cols (m : Merged.t num) : Final.t num :=
  let r := Item.route (Merged.item m) in
  Final.mk (Route.Driver r) (Route.Stop r) (Route.Shipping_name r) (Route.Address r)
           (Merged.Count m) (Item.Item_Count (Merged.item m))
           (Item.Lineitem_name (Merged.item m)) (Route.Total_items r) (Route.Note r)
           (Route.time r) (Route.dist r).

(** Lines 46-52: the names of [final_cols] that are no column of the
    table, in the order of [final_cols], and the [ValueError] raised when
    there is one. *)
Definition final_col_names : list pystr :=
  [py "Driver"; py "Stop"; py "Shipping name"; py "Address"; py "Count";
   py "Item Count"; py "Lineitem name"; py "Total items"; py "Note"; py "time";
   py "dist"].

Definition missing_cols (columns : list pystr) : list pystr :=
  filter (fun col => col ∉ columns) final_col_names.

Definition check_final_cols (columns : list pystr) : result unit :=
  match missing_cols columns with
  | [] => Ok tt
  | _ :: _ => Raise ValueError
  end.

(** Lines 8-54, on tables whose Address and Items columns and whose Title
    column of the product file are object columns: there [.str] and the
    merge raise nothing (see the conventions at the head of the file). *)
Definition process_data (route_data : list (Route.t num)) (products_data : list Product.t)
    : list (Final.t num) * list Plist.t :=
  let route_df := ffill_cols route_data in
  let route_df := address_processing route_df in
  let df_plist := prepare_plist products_data in
  let route_df := extract_items route_df in
  let route_df := merge_routes route_df df_plist in
  let route_df := fmap add_Count route_df in
  (fmap final_cols route_df, df_plist).

(** *** The packing table (lines 130-135) *)

(** [astype(int)] on an object column calls [int] on every cell: NaN
    raises, a run of digits gives its value.  The cells of [Item Count] are
    NaN or runs of digits. *)
Definition astype_int (c : cell) : result Z :=
  match c with
  | Some (d :: s) =>
    match int_digits 0 (d :: s) with
    | Some z => Ok z
    | None => Raise ValueError
    end
  | _ => Raise ValueError
  end.

(** Line 132: the key of [groupby(["Driver", "Lineitem name"])]; a row with
    a NaN in either column has none. *)
Definition packing_key (r : Final.t num) : option (pystr * pystr) :=
  d ← Final.Driver r; n ← Final.Lineitem_name r; Some (d, n).

(** Line 133: [np.where(Count > 1, Count, '')], an array of strings. *)
Definition count_new (count : Z) : pystr :=
  if decide (1 < count) then str_of_int count else [].

Definition summed_row (k : pystr * pystr) (counts : list Z) : Summed.t :=
  let count := sum_int64 counts in
  Summed.mk k.1 k.2 count (count_new count).

(** Line 135: the key of [sort_values(by=["Driver", "Product type",
    "Variant SKU", "Lineitem name"])] and its order. *)
Definition packing_sort_key (p : Packing.t) : pystr * (cell * (cell * pystr)) :=
  (Packing.Driver p,
   (Packing.Product_type p, (Packing.Variant_SKU p, Packing.Lineitem_name p))).

Definition packing_compare (a b : pystr * (cell * (cell * pystr))) : comparison :=
  pair_compare str_compare
    (pair_compare cell_compare (pair_compare cell_compare str_compare)) a b.

(** Lines 130-131: [Count] is [Item Count] as integers.  The code keeps
    the columns Driver, Lineitem name and Item Count; here the row is kept
    whole and paired with its count. *)
Definition count_column (route_df : list (Final.t num)) : result (list (Final.t num * Z)) :=
  do counts <- traverse (fun r => astype_int (Final.Item_Count r)) route_df;
  Ok (zip route_df counts).

(** Lines 132-133: one row per (driver, item name) with the int64 sum of
    the counts of its rows.  (The text column Item Count is not used after
    the sum and is left out.) *)
Definition sum_counts (counted : list (Final.t num * Z)) : list Summed.t :=
  fmap (fun g => summed_row g.1 (fmap snd g.2))
       (groupby (pair_compare str_compare str_compare) (fun rc => packing_key rc.1) counted).

(** Line 134: [pd.merge(packing_df, df_plist, on='Lineitem name', how='left')]. *)
Definition merge_packing (grouped : list Summed.t) (df_plist : list Plist.t)
    : list Packing.t :=
  fmap (fun m => Packing.mk m.1 m.2)
       (merge_left (fun s => Some (Summed.Lineitem_name s)) Plist.Lineitem_name
                   grouped df_plist).

(** Lines 130-135. *)
Definition packing_df (route_df : list (Final.t num)) (df_plist : list Plist.t)
    : result (list Packing.t) :=
  do counted <- count_column route_df;
  let grouped := sum_counts counted in
  let merged := merge_packing grouped df_plist in
  Ok (sort_values packing_compare packing_sort_key merged).

(** *** The workbooks *)

(** A cell as [load_workbook] shows it: its value, and the parts of its
    style this program reads or writes. *)
Inductive xval :=
| XBlank
| XText (s : pystr)
| XNum (x : num)
| XInt (z : Z).

Record xcell := mk_cell {
  value : xval;
  bold : bool;
  horizontal : option pystr;
  vertical : option pystr;
  border_left : option pystr;
  border_right : option pystr;
  border_top : option pystr;
  border_bottom : option pystr
}.

(** [ws.iter_rows()] walks [cells], the rows of the used range. *)
Record worksheet := mk_sheet {
  title : pystr;
  cells : list (list xcell);
  freeze_panes : option pystr;
  footer : pystr
}.

Abbreviation workbook := (list worksheet) (only parsing).

(** What [load_workbook] finds in the cell [to_excel] wrote: nothing for
    NaN and for the empty string, a text as it is, a number in its sixteen
    digits. *)
Definition text_val (c : cell) : xval :=
  match c with
  | Some (a :: s) => XText (a :: s)
  | _ => XBlank
  end.

Definition num_val (c : option num) : xval :=
  match c with
  | Some x => XNum (xlsx_number x)
  | None => XBlank
  end.

Definition int_val (z : Z) : xval := XInt (xlsx_integer z).

(** pandas writes the header cells bold, centred, with a thin border. *)
Definition header_cell (name : pystr) : xcell :=
  mk_cell (XText name) true (Some (py "center")) (Some (py "top"))
          (Some (py "thin")) (Some (py "thin")) (Some (py "thin")) (Some (py "thin")).

Definition data_cell (v : xval) : xcell :=
  mk_cell v false None None None None None None.

(** [set_footer(f'&C{driver} &P &20 &"Arial,Bold Italic"')]; 34 is the
    double quote. *)
Definition footer_of (driver : pystr) : pystr :=
  py "&C" ++ driver ++ py " &P &20 &" ++ [34%N] ++ py "Arial,Bold Italic" ++ [34%N].

(** [final.to_excel(writer, sheet_name=driver, index=False)] and the
    footer: the header row, then the rows of [final]. *)
Definition to_excel (columns : list pystr) (final : list (list xval)) (driver : pystr)
    : worksheet :=
  mk_sheet driver
           (fmap header_cell columns
              :: fmap (fun row : list xval => fmap data_cell row) final)
           None (footer_of driver).

(** The loop over the groups: every sheet is added to the workbook unless
    XlsxWriter refuses its name. *)
Fixpoint write_sheets (columns : list pystr) (wb : workbook)
    (groups : list (pystr * list (list xval))) : result workbook :=
  match groups with
  | [] => Ok wb
  | (driver, final) :: rest =>
    if sheetname_ok (fmap title wb) driver
    then write_sheets columns (wb ++ [to_excel columns final driver]) rest
    else Raise WorksheetNameError
  end.

(** Leaving the [with] block saves the workbook; XlsxWriter gives a
    workbook without sheets one empty sheet. *)
Definition close_writer (wb : workbook) : workbook :=
  match wb with
  | [] => [mk_sheet (py "Sheet1") [] None []]
  | _ => wb
  end.

(** Lines 100-117. The value returned is the serialisation of this
    workbook. *)
Definition format_cell (c : xcell) : xcell :=
  mk_cell (value c) (bold c) (Some (py "left")) (Some (py "center"))
          (Some (py "thin")) (Some (py "thin")) (Some (py "thin")) (Some (py "thin")).

(** A sheet without footer is saved without one. *)
Definition saved_footer (footer : pystr) : pystr :=
  match footer with
  | [] => []
  | _ :: _ => resave_footer footer
  end.

Definition format_sheet (ws : worksheet) : worksheet :=
  mk_sheet (title ws)
           (fmap (fun row : list xcell => fmap format_cell row) (cells ws))
           (Some (py "A2")) (saved_footer (footer ws)).

Definition format_excel_file (wb : workbook) : workbook := fmap format_sheet wb.

(** Lines 66-81. *)
Definition routing_columns : list pystr :=
  [py "Address"; py "Count"; py "Lineitem name"; py "Total items"; py "Note";
   py "time"; py "dist"; py "Stop"].

Definition routing_row (r : Final.t num) : list xval :=
  [text_val (Final.Address r); text_val (Final.Count r); text_val (Final.Lineitem_name r);
   num_val (Final.Total_items r); text_val (Final.Note r); num_val (Final.time r);
   num_val (Final.dist r); num_val (Final.Stop r)].

(** Lines 74-75: the sums of the three columns, appended as a row whose
    other cells are NaN. *)
Definition routing_total (group : list (Final.t num)) : list xval :=
  [XBlank; XBlank; XBlank; num_val (Some (df_sum (fmap Final.Total_items group))); XBlank;
   num_val (Some (df_sum (fmap Final.time group)));
   num_val (Some (df_sum (fmap Final.dist group))); XBlank].

Definition routing_final (group : list (Final.t num)) : list (list xval) :=
  fmap routing_row group ++ [routing_total group].

Definition create_routing_file (route_df : list (Final.t num)) : result workbook :=
  do wb <- write_sheets routing_columns []
             (fmap (fun g => (g.1, routing_final g.2))
                  (groupby str_compare Final.Driver route_df));
  Ok (format_excel_file (close_writer wb)).

(** Lines 83-98. *)
Definition packing_columns : list pystr :=
  [py "Product type"; py "Count_New"; py "Lineitem name"; py "Count";
   py "Variant SKU"; py "Vendor"].

Definition packing_row (p : Packing.t) : list xval :=
  [text_val (Packing.Product_type p); text_val (Some (Packing.Count_New p));
   text_val (Some (Packing.Lineitem_name p)); int_val (Packing.Count p);
   text_val (Packing.Variant_SKU p); text_val (Packing.Vendor p)].

(** Lines 91-92: the int64 sum of Count, appended as a row. *)
Definition packing_total (group : list Packing.t) : list xval :=
  [XBlank; XBlank; XBlank; int_val (sum_int64 (fmap Packing.Count group)); XBlank; XBlank].

Definition packing_final (group : list Packing.t) : list (list xval) :=
  fmap packing_row group ++ [packing_total group].

Definition create_packing_file (packing : list Packing.t) : result workbook :=
  do wb <- write_sheets packing_columns []
             (fmap (fun g => (g.1, packing_final g.2))
                  (groupby str_compare (fun p => Some (Packing.Driver p)) packing));
  Ok (format_excel_file (close_writer wb)).

(** Lines 125-139: what the upload handler computes inside its [try], on
    the tables of [process_data].  The exceptions are those of
    [astype(int)] and of XlsxWriter's check of a sheet name. *)
Definition generate (route_file : list (Route.t num)) (products_file : list Product.t)
    : result (workbook * workbook) :=
  let (route_df, df_plist) := process_data route_file products_file in
  do packing <- packing_df route_df df_plist;
  do routing_file <- create_routing_file route_df;
  do packing_file <- create_packing_file packing;
  Ok (routing_file, packing_file).

(* ===================================================================== *)
(** ** Vocabulary of the statements                                       *)
(* ===================================================================== *)

(** [sub] occurs in [s]. *)
Definition substring (sub s : pystr) : Prop :=
  exists pre post, s = pre ++ sub ++ post.

(** The order [sort_values] sorts into: the keys ascend. *)
Definition key_le {A K} (cmp : K -> K -> comparison) (key : A -> K) (x y : A) : Prop :=
  cmp_le cmp (key x) (key y).

Definition categories : list (list N) :=
  [py "vege & fruit"; py "cool"; py "general"; py "other"].

Definition formatted (c : xcell) : Prop :=
  horizontal c = Some (py "left") /\ vertical c = Some (py "center") /\
  border_left c = Some (py "thin") /\ border_right c = Some (py "thin") /\
  border_top c = Some (py "thin") /\ border_bottom c = Some (py "thin").

(** The values of a sheet, row by row. *)
Definition sheet_values (ws : worksheet) : list (list xval) :=
  (fun row : list xcell => value <$> row) <$> cells ws.

(** The rows of [df_plist] whose title is the item name of a route row. *)
Definition partners (df_plist : list Plist.t) (r : Item.t num) : list Plist.t :=
  matches Plist.Lineitem_name (Item.Lineitem_name r) df_plist.

(** The rows [process_data] returns for one row of the filled route
    table. *)
Definition final_rows (df_plist : list Plist.t) (r : Route.t num) : list (Final.t num) :=
  (fun m => final_cols (add_Count m))
    <$> merge_row Item.Lineitem_name Plist.Lineitem_name df_plist
          (Item.mk r (lineitem_name (Route.Items r)) (item_count (Route.Items r))).

(** The names the writer is asked for are accepted one after the other. *)
Fixpoint names_accepted (existing names : list (list N)) : Prop :=
  match names with
  | [] => True
  | d :: rest => sheetname_ok existing d = true /\ names_accepted (existing ++ [d]) rest
  end.

(** The sheets the loop of a report builder writes for a table. *)
Definition report_sheets {A} (columns : list (list N)) (final : list A -> list (list xval))
    (key : A -> option (list N)) (df : list A) : list worksheet :=
  (fun g => to_excel columns (final g.2) g.1) <$> groupby str_compare key df.

(** The drivers of a table, as a report builder's [groupby] lists them. *)
Definition drivers (route_df : list (Final.t num)) : list (list N) :=
  group_keys str_compare (omap Final.Driver route_df).

(** The number in column [j] of a row of a sheet, if there is one. *)
Definition xnum_at (j : nat) (row : list xval) : option num :=
  match row !! j with
  | Some (XNum x) => Some x
  | _ => None
  end.

Definition xint_at (j : nat) (row : list xval) : option Z :=
  match row !! j with
  | Some (XInt z) => Some z
  | _ => None
  end.

(** The numbers of a column of the frame, and their sum, reach the sheet
    as they are: none has more than the sixteen digits XlsxWriter
    writes. *)
Definition written_exactly (col : list (option num)) : Prop :=
  Forall (fun c => forall x, c = Some x -> xlsx_number x = x) col /\
  xlsx_number (df_sum col) = df_sum col.

(** The row [a] has a key, and the key satisfies [Q]. *)
Definition on_key {A K} (key : A -> option K) (Q : K -> Prop) (a : A) : Prop :=
  match key a with
  | Some k => Q k
  | None => False
  end.

(** The item count of a merged route row as a number. *)
Definition count_of (f : Final.t num) : Z :=
  match astype_int (Final.Item_Count f) with
  | Ok z => z
  | Raise _ => 0
  end.

(** A text cell that shows nothing: NaN, or the empty text. *)
Definition blank (c : cell) : Prop := c = None \/ c = Some [].

(** The text begins with a comma. *)
Definition comma_first (a : pystr) : Prop := head a = Some 44%N.

(** The column [read_csv] makes of the fields of a text column is an object
    column, on which [.str] works and which merges with another object
    column, when the file has no row or a field of the column holds a
    text; a column of blank fields only is a float64 column. *)
Definition object_column (col : list cell) : Prop :=
  col = [] \/ exists s, Some s ∈ col.

(** The code points of the CJK Unified Ideographs, among which are the
    characters of the four keywords. *)
Definition ideograph (c : codepoint) : bool := ((19968 <=? c) && (c <=? 40959))%N.

(** What the statements need of [str.lower]: it lower-cases a text
    character by character (one character may give several, as U+0130
    does, and what it gives may depend on its neighbours, as for the Greek
    sigma); an ideograph has no case and stays; no other character gives an
    ideograph, and none is dropped. *)
Definition lowered (c : codepoint) (out : pystr) : Prop :=
  if ideograph c then out = [c]
  else out <> [] /\ Forall (fun d => ideograph d = false) out.

Definition lower_keeps_ideographs : Prop :=
  forall s, exists outs, lower s = concat outs /\ Forall2 lowered s outs.

(** The last value of a column that is no NaN. *)
Definition last_valid {A} (col : list (option A)) : option A := last (omap id col).

(** The row [process_data] returns for a row of the filled route table,
    whatever the product list. *)
Definition route_row (r : Route.t num) : Final.t num :=
  final_cols (add_Count (Item.mk r (lineitem_name (Route.Items r))
                                   (item_count (Route.Items r)), None)).

(** The rows of a sheet between its header and its last row. *)
Definition data_rows (ws : worksheet) : list (list xval) :=
  take (length (sheet_values ws) - 2) (drop 1 (sheet_values ws)).

(** The workbook of one empty sheet that is left of a report without any
    group: XlsxWriter's default sheet, with the panes frozen. *)
Definition blank_workbook : list worksheet :=
  [mk_sheet (py "Sheet1") [] (Some (py "A2")) []].

(* ===================================================================== *)
(** * Properties                                                          *)
(* ===================================================================== *)

(** ** Substrings *)

Lemma starts_with_spec (sub s : pystr) :
  starts_with sub s = true <-> exists post, s = sub ++ post.
Proof.
  revert s. induction sub as [|a sub IH]; intros s; simpl.
  - split; [intros _; by exists s | done].
  - destruct s as [|b s].
    + split; [done | intros [post Hpost]; discriminate].
    + rewrite andb_true_iff, N.eqb_eq, IH. split.
      * intros [-> [post ->]]. by exists post.
      * intros [post Hpost]. injection Hpost as -> ->. eauto.
Qed.

Lemma contains_spec (sub s : pystr) : contains sub s = true <-> substring sub s.
Proof.
  unfold substring. induction s as [|b s IH].
  - simpl. rewrite orb_false_r, starts_with_spec. split.
    + intros [post Hpost]. by exists [], post.
    + intros ([|c pre] & post & Hpost); [by exists post | discriminate].
  - change (contains sub (b :: s)) with (starts_with sub (b :: s) || contains sub s).
    rewrite orb_true_iff, starts_with_spec, IH. split.
    + intros [[post Hpost] | (pre & post & Hpost)].
      * by exists [], post.
      * exists (b :: pre), post. by rewrite Hpost.
    + intros ([|c pre] & post & Hpost).
      * left. by exists post.
      * right. injection Hpost as -> ->. by exists pre, post.
Qed.

Lemma contains_false (sub s : pystr) : contains sub s = false <-> ~ substring sub s.
Proof. params. rewrite <- contains_spec. destruct (contains sub s); naive_solver. Qed.

(** ** Comparisons and sorted tables *)

Lemma comparison_opp_lt (c : comparison) : CompOpp c = Lt <-> c = Gt.
Proof. params. destruct c; naive_solver. Qed.

#[global] Instance str_compare_order : CmpOrder str_compare.
Proof.
  split.
  - intros x. induction x as [|a x IH]; intros [|b y]; simpl; try done.
    destruct (a ?= b)%N eqn:E; try done.
    apply N.compare_eq in E as ->. intros H. f_equal. by apply IH.
  - intros x. induction x as [|a x IH]; intros [|b y]; simpl; try done.
    rewrite (N.compare_antisym a b). destruct (a ?= b)%N; simpl; auto.
  - intros x. induction x as [|a x IH]; intros [|b y] [|c z]; simpl; try done.
    destruct (a ?= b)%N eqn:E1, (b ?= c)%N eqn:E2; try done.
    + apply N.compare_eq in E1 as ->. rewrite E2. apply IH.
    + apply N.compare_eq in E1 as ->. by rewrite E2.
    + apply N.compare_eq in E2 as ->. by rewrite E1.
    + intros _ _. rewrite N.compare_lt_iff in E1, E2.
      assert ((a ?= c)%N = Lt) as -> by (rewrite N.compare_lt_iff; lia). done.
Qed.

#[global] Instance cell_compare_order : CmpOrder cell_compare.
Proof.
  split.
  - intros [x|] [y|]; simpl; try done. intros H. f_equal. by apply cmp_eq in H.
  - intros [x|] [y|]; simpl; try done. apply cmp_opp.
  - intros [x|] [y|] [z|]; simpl; try done. apply cmp_lt_trans.
Qed.

#[global] Instance pair_compare_order {A B} (ca : A -> A -> comparison)
    (cb : B -> B -> comparison) `{!CmpOrder ca, !CmpOrder cb} :
  CmpOrder (pair_compare ca cb).
Proof.
  split.
  - intros [a1 b1] [a2 b2]. unfold pair_compare; simpl.
    destruct (ca a1 a2) eqn:E; simpl; try done.
    intros H. apply cmp_eq in E as ->. apply cmp_eq in H as ->. done.
  - intros [a1 b1] [a2 b2]. unfold pair_compare; simpl.
    rewrite (cmp_opp a1 a2). destruct (ca a1 a2); simpl; auto using cmp_opp.
  - intros [a1 b1] [a2 b2] [a3 b3]. unfold pair_compare; simpl.
    destruct (ca a1 a2) eqn:E1, (ca a2 a3) eqn:E2; simpl; try done.
    + apply cmp_eq in E1 as ->. rewrite E2. simpl. apply cmp_lt_trans.
    + apply cmp_eq in E1 as ->. by rewrite E2.
    + apply cmp_eq in E2 as ->. by rewrite E1.
    + intros _ _. by rewrite (cmp_lt_trans _ _ _ E1 E2).
Qed.

#[global] Instance packing_compare_order : CmpOrder packing_compare.
Proof.
  pose proof (pair_compare_order str_compare
                (pair_compare cell_compare (pair_compare cell_compare str_compare))) as H.
  split; unfold packing_compare; apply H.
Qed.

Section Sorting.
Context {K : Type} (cmp : K -> K -> comparison) `{!CmpOrder cmp}.
Local Set Default Proof Using "Type*".

Lemma cmp_refl (x : K) : cmp x x = Eq.
Proof. pose proof (cmp_opp x x) as H. destruct (cmp x x); done. Qed.

Lemma cmp_gt_lt (x y : K) : cmp x y = Gt -> cmp y x = Lt.
Proof. intros H. by rewrite cmp_opp, H. Qed.

Lemma cmp_le_trans (x y z : K) : cmp_le cmp x y -> cmp_le cmp y z -> cmp_le cmp x z.
Proof.
  unfold cmp_le. intros Hxy Hyz.
  destruct (cmp x y) eqn:E1; [| |done].
  - by apply cmp_eq in E1 as ->.
  - destruct (cmp y z) eqn:E2; [| |done].
    + apply cmp_eq in E2 as <-. by rewrite E1.
    + by rewrite (cmp_lt_trans _ _ _ E1 E2).
Qed.

Lemma cmp_lt_le (x y : K) : cmp_lt cmp x y -> cmp_le cmp x y.
Proof. unfold cmp_lt, cmp_le. by intros ->. Qed.

Lemma cmp_lt_irrefl (x : K) : ~ cmp_lt cmp x x.
Proof. unfold cmp_lt. by rewrite cmp_refl. Qed.

(** *** The keys of a groupby *)

Lemma elem_of_insert_key (k x : K) (l : list K) :
  x ∈ insert_key cmp k l <-> x = k \/ x ∈ l.
Proof. params.
  induction l as [|y l IH]; simpl.
  - rewrite list_elem_of_singleton. set_solver.
  - destruct (cmp k y) eqn:E.
    + apply cmp_eq in E as ->. set_solver.
    + set_solver.
    + rewrite !elem_of_cons, IH. naive_solver.
Qed.

Lemma insert_key_sorted (k : K) (l : list K) :
  StronglySorted (cmp_lt cmp) l -> StronglySorted (cmp_lt cmp) (insert_key cmp k l).
Proof.
  induction 1 as [|y l Hl IH Hy]; simpl.
  - repeat constructor.
  - destruct (cmp k y) eqn:E.
    + by constructor.
    + constructor; [by constructor|]. constructor; [done|].
      eapply Forall_impl; [exact Hy|]. intros z Hz. by eapply cmp_lt_trans.
    + constructor; [done|]. apply Forall_forall. intros z Hz.
      apply elem_of_insert_key in Hz as [->|Hz].
      * by apply cmp_gt_lt.
      * by eapply Forall_forall in Hy.
Qed.

Lemma elem_of_group_keys (x : K) (l : list K) : x ∈ group_keys cmp l <-> x ∈ l.
Proof. params.
  induction l as [|k l IH]; simpl; [done|].
  rewrite elem_of_insert_key, IH. set_solver.
Qed.

Lemma group_keys_sorted (l : list K) : StronglySorted (cmp_lt cmp) (group_keys cmp l).
Proof.
  induction l as [|k l IH]; simpl; [constructor|]. by apply insert_key_sorted.
Qed.

Lemma sorted_lt_NoDup (l : list K) : StronglySorted (cmp_lt cmp) l -> NoDup l.
Proof.
  induction 1 as [|y l Hl IH Hy]; constructor; [|done].
  intros Hin. eapply Forall_forall in Hy; [|exact Hin]. by apply cmp_lt_irrefl in Hy.
Qed.

Lemma group_keys_NoDup (l : list K) : NoDup (group_keys cmp l).
Proof. apply sorted_lt_NoDup, group_keys_sorted. Qed.

(** Two strictly ascending lists with the same elements are the same. *)
Lemma sorted_lt_unique (l1 l2 : list K) :
  StronglySorted (cmp_lt cmp) l1 -> StronglySorted (cmp_lt cmp) l2 ->
  (forall x, x ∈ l1 <-> x ∈ l2) -> l1 = l2.
Proof. params.
  intros H1. revert l2. induction H1 as [|a l1 Hl1 IH Ha]; intros l2 H2 Hel.
  - destruct l2 as [|b l2]; [done|]. specialize (Hel b). set_solver.
  - destruct H2 as [|b l2 Hl2 Hb]; [specialize (Hel a); set_solver|].
    assert (a = b) as <-.
    { pose proof (proj1 (Hel a) ltac:(left)) as Ha2.
      pose proof (proj2 (Hel b) ltac:(left)) as Hb1.
      apply elem_of_cons in Ha2 as [?|Ha2]; [done|].
      apply elem_of_cons in Hb1 as [?|Hb1]; [done|].
      eapply Forall_forall in Ha; [|exact Hb1].
      eapply Forall_forall in Hb; [|exact Ha2].
      pose proof (cmp_lt_trans _ _ _ Ha Hb) as Hc. by apply cmp_lt_irrefl in Hc. }
    f_equal. apply IH; [done|]. intros x. split; intros Hx.
    + pose proof (proj1 (Hel x) ltac:(by right)) as Hx2.
      apply elem_of_cons in Hx2 as [->|?]; [|done].
      eapply Forall_forall in Ha; [|exact Hx]. by apply cmp_lt_irrefl in Ha.
    + pose proof (proj2 (Hel x) ltac:(by right)) as Hx1.
      apply elem_of_cons in Hx1 as [->|?]; [|done].
      eapply Forall_forall in Hb; [|exact Hx]. by apply cmp_lt_irrefl in Hb.
Qed.

Lemma group_keys_ext (l1 l2 : list K) :
  (forall x, x ∈ l1 <-> x ∈ l2) -> group_keys cmp l1 = group_keys cmp l2.
Proof.
  intros H. apply sorted_lt_unique; try apply group_keys_sorted.
  intros x. by rewrite !elem_of_group_keys.
Qed.

(** *** sort_values *)

Section SortValues.
Context {A : Type} (key : A -> K).

Lemma insert_by_perm (x : A) (l : list A) : insert_by cmp key x l ≡ₚ x :: l.
Proof.
  induction l as [|y l IH]; simpl; [done|].
  destruct (cmp (key x) (key y)); try done.
  rewrite IH. apply Permutation_swap.
Qed.

Lemma insert_by_sorted (x : A) (l : list A) :
  StronglySorted (key_le cmp key) l ->
  StronglySorted (key_le cmp key) (insert_by cmp key x l).
Proof.
  induction 1 as [|y l Hl IH Hy]; simpl.
  - repeat constructor.
  - destruct (cmp (key x) (key y)) eqn:E.
    + constructor; [by constructor|]. constructor.
      * unfold key_le, cmp_le. by rewrite E.
      * eapply Forall_impl; [exact Hy|]. intros z Hz.
        eapply cmp_le_trans; [|exact Hz]. unfold cmp_le. by rewrite E.
    + constructor; [by constructor|]. constructor.
      * unfold key_le, cmp_le. by rewrite E.
      * eapply Forall_impl; [exact Hy|]. intros z Hz.
        eapply cmp_le_trans; [|exact Hz]. unfold cmp_le. by rewrite E.
    + constructor; [done|].
      rewrite (insert_by_perm x l). constructor; [|done].
      apply cmp_lt_le. by apply cmp_gt_lt.
Qed.

Lemma sort_values_perm (l : list A) : sort_values cmp key l ≡ₚ l.
Proof.
  induction l as [|x l IH]; simpl; [done|].
  by rewrite insert_by_perm, IH.
Qed.

Lemma sort_values_sorted (l : list A) :
  StronglySorted (key_le cmp key) (sort_values cmp key l).
Proof.
  induction l as [|x l IH]; simpl; [constructor|]. by apply insert_by_sorted.
Qed.

End SortValues.

End Sorting.

(** ** Forward fill and column assignment *)

Lemma length_ffill_from {A} (last : option A) (col : list (option A)) :
  length (ffill_from last col) = length col.
Proof. revert last. induction col as [|x col IH]; intros last; simpl; auto. Qed.

Lemma length_ffill {A} (col : list (option A)) : length (ffill col) = length col.
Proof. apply length_ffill_from. Qed.

Lemma ffill_from_Some {A} (v : A) (col : list (option A)) :
  Forall is_Some (ffill_from (Some v) col).
Proof.
  revert v. induction col as [|x col IH]; intros v; simpl; constructor.
  - destruct x; eauto.
  - destruct x; apply IH.
Qed.

(** A column whose first cell is filled has no NaN after [ffill]. *)
Lemma ffill_first_Some {A} (x : option A) (col : list (option A)) :
  is_Some x -> Forall is_Some (ffill (x :: col)).
Proof.
  intros [v ->]. unfold ffill. simpl. constructor; [eauto|apply ffill_from_Some].
Qed.

(** A NaN at the top of a column stays. *)
Lemma ffill_first_None {A} (col : list (option A)) :
  head (ffill (None :: col)) = Some None.
Proof. reflexivity. Qed.

Lemma ffill_all_Some {A} (col : list (option A)) :
  Forall is_Some col -> ffill col = col.
Proof.
  unfold ffill. generalize (@None A).
  induction col as [|x col IH]; intros last H; simpl; [done|].
  inversion H as [|? ? [v ->] Hcol]; subst. f_equal. by apply IH.
Qed.

Section Assign.
Context {R A : Type} (set : A -> R -> R).
Local Set Default Proof Using "Type*".

Lemma length_assign (values : list A) (df : list R) :
  length values = length df -> length (assign set values df) = length df.
Proof. intros H. unfold assign. rewrite length_zip_with. lia. Qed.

Lemma assign_same (get : R -> A) (values : list A) (df : list R) :
  (forall v r, get (set v r) = v) -> length values = length df ->
  get <$> assign set values df = values.
Proof. intros Hget Hlen. apply fmap_zip_with_l; [done | lia]. Qed.

Lemma assign_other {B} (get : R -> B) (values : list A) (df : list R) :
  (forall v r, get (set v r) = get r) -> length values = length df ->
  get <$> assign set values df = get <$> df.
Proof.
  intros Hget. unfold assign. revert df.
  induction values as [|v values IH]; intros [|r df] Hlen; simplify_eq/=; [done|].
  f_equal; auto.
Qed.

End Assign.

Ltac assign_lengths :=
  repeat first
    [ done
    | rewrite length_ffill
    | rewrite length_fmap
    | rewrite length_assign ].

Ltac assign_column :=
  repeat first
    [ rewrite assign_same by (first [done | assign_lengths])
    | rewrite assign_other by (first [done | assign_lengths]) ];
  try done.

Lemma length_ffill_cols (route_data : list (Route.t num)) :
  length (ffill_cols route_data) = length route_data.
Proof. unfold ffill_cols. assign_lengths. Qed.

Lemma ffill_cols_Route (rd : list (Route.t num)) :
  Route.Route <$> ffill_cols rd = ffill (Route.Route <$> rd).
Proof. unfold ffill_cols. assign_column. Qed.

Lemma ffill_cols_Driver (rd : list (Route.t num)) :
  Route.Driver <$> ffill_cols rd = ffill (Route.Driver <$> rd).
Proof. unfold ffill_cols. assign_column. Qed.

Lemma ffill_cols_Stop (rd : list (Route.t num)) :
  Route.Stop <$> ffill_cols rd = ffill (Route.Stop <$> rd).
Proof. unfold ffill_cols. assign_column. Qed.

Lemma ffill_cols_Address (rd : list (Route.t num)) :
  Route.Address <$> ffill_cols rd = ffill (Route.Address <$> rd).
Proof. unfold ffill_cols. assign_column. Qed.

Lemma ffill_cols_Shipping_name (rd : list (Route.t num)) :
  Route.Shipping_name <$> ffill_cols rd = ffill (Route.Shipping_name <$> rd).
Proof. unfold ffill_cols. assign_column. Qed.

Lemma ffill_cols_Items (rd : list (Route.t num)) :
  Route.Items <$> ffill_cols rd = Route.Items <$> rd.
Proof. unfold ffill_cols. assign_column. Qed.

Lemma length_address_processing (df : list (Route.t num)) :
  length (address_processing df) = length df.
Proof. unfold address_processing. assign_lengths. Qed.

Lemma address_processing_Address (df : list (Route.t num)) :
  Route.Address <$> address_processing df
  = ffill ((fun r => before_comma <$> Route.Address r) <$> df).
Proof. unfold address_processing. assign_column. Qed.

Lemma address_processing_other {B} (get : Route.t num -> B) (df : list (Route.t num)) :
  (forall v r, get (Route.set_Address v r) = get r) ->
  get <$> address_processing df = get <$> df.
Proof. intros H. unfold address_processing. assign_column. Qed.

Lemma filled_Items (rd : list (Route.t num)) :
  Route.Items <$> filled rd = Route.Items <$> rd.
Proof.
  unfold filled. rewrite address_processing_other by done. apply ffill_cols_Items.
Qed.

Lemma filled_Driver (rd : list (Route.t num)) :
  Route.Driver <$> filled rd = ffill (Route.Driver <$> rd).
Proof.
  unfold filled. rewrite address_processing_other by done. apply ffill_cols_Driver.
Qed.

Lemma Forall_column {R B} (get : R -> B) (P : B -> Prop) (df : list R) :
  Forall P (get <$> df) -> Forall (fun r => P (get r)) df.
Proof. by rewrite Forall_fmap. Qed.

(** ** The classifier *)

(** Lower-casing neither makes nor breaks an occurrence of a keyword of
    ideographs. *)
Lemma starts_with_lowered (s : list N) (outs : list (list N)) (p : list N) :
  Forall2 lowered s outs -> Forall (fun c => ideograph c = true) p ->
  starts_with p (concat outs) = starts_with p s.
Proof. params.
  intros Hs Hp. revert s outs Hs.
  induction Hp as [|c p Hc _ IH]; intros s outs Hs; [done|].
  destruct Hs as [|a out s outs Ha Hs]; [done|].
  unfold lowered in Ha. cbn [concat].
  destruct (ideograph a) eqn:Ea.
  - subst out. cbn [app starts_with]. by rewrite (IH s outs).
  - destruct Ha as [Hne Hout]. destruct out as [|d out]; [done|].
    apply Forall_cons in Hout as [Hd _]. cbn [app starts_with].
    replace (c =? d)%N with false; [|symmetry; apply N.eqb_neq; congruence].
    replace (c =? a)%N with false; [done|]. symmetry. apply N.eqb_neq. congruence.
Qed.

Lemma contains_skip (k : N) (kw out rest : list N) :
  ideograph k = true -> Forall (fun d => ideograph d = false) out ->
  contains (k :: kw) (out ++ rest) = contains (k :: kw) rest.
Proof. params.
  intros Hk. induction 1 as [|d out Hd _ IH]; [done|].
  cbn [app contains starts_with]. cbn [contains] in IH. rewrite IH.
  replace (k =? d)%N with false; [done|]. symmetry. apply N.eqb_neq. congruence.
Qed.

Lemma contains_lowered (k : N) (kw s : list N) (outs : list (list N)) :
  Forall (fun c => ideograph c = true) (k :: kw) ->
  Forall2 lowered s outs -> contains (k :: kw) (concat outs) = contains (k :: kw) s.
Proof. params.
  intros Hkw. pose proof Hkw as [Hk _]%Forall_cons.
  induction 1 as [|a out s outs Ha Hs IH]; [done|].
  assert (Forall2 lowered (a :: s) (out :: outs)) as Hall by by constructor.
  pose proof (starts_with_lowered (a :: s) (out :: outs) (k :: kw) Hall Hkw) as Hstart.
  cbn [concat] in Hstart |- *. unfold lowered in Ha.
  destruct (ideograph a) eqn:Ea.
  - subst out. cbn [app] in Hstart |- *.
    change (contains (k :: kw) (a :: concat outs))
      with (starts_with (k :: kw) (a :: concat outs) || contains (k :: kw) (concat outs)).
    change (contains (k :: kw) (a :: s))
      with (starts_with (k :: kw) (a :: s) || contains (k :: kw) s).
    by rewrite Hstart, IH.
  - destruct Ha as [Hne Hout]. rewrite contains_skip by done.
    change (contains (k :: kw) (a :: s))
      with (starts_with (k :: kw) (a :: s) || contains (k :: kw) s).
    rewrite IH. cbn [starts_with].
    replace (k =? a)%N with false; [done|]. symmetry. apply N.eqb_neq. congruence.
Qed.

Lemma contains_lower (kw s : list N) :
  lower_keeps_ideographs -> kw <> [] -> Forall (fun c => ideograph c = true) kw ->
  contains kw (lower s) = true <-> substring kw s.
Proof.
  intros Hlower Hne Hkw. destruct kw as [|k kw]; [done|].
  destruct (Hlower s) as (outs & -> & Hs).
  rewrite (contains_lowered k kw s outs Hkw Hs).
  apply contains_spec.
Qed.

(** C2: [determine_product_type] is a total function of the tag's text.  It
    looks for the keywords in the text, whatever the case of its letters,
    in a fixed order: a text that contains one of the two fruit and
    vegetable keywords gives vege & fruit; failing that, one that contains
    the chilled keyword gives cool; failing that, one that contains the
    ambient keyword gives general; failing all, other, as the empty text
    and a NaN do.  The result is one of the four categories and is the same
    for texts that differ in the case of their letters only.  (Of
    [str.lower] this uses that it leaves ideographs as they are and makes
    none.) *)
Theorem determine_product_type_priority (s : list N) :
  lower_keeps_ideographs ->
  let vege := substring (py "蔬菜水果类") s \/ substring (py "独家订阅包") s in
  let cool := substring (py "冰冻冷藏类") s in
  let general := substring (py "常温类") s in
  (vege -> determine_product_type (Some s) = py "vege & fruit") /\
  (~ vege -> cool -> determine_product_type (Some s) = py "cool") /\
  (~ vege -> ~ cool -> general -> determine_product_type (Some s) = py "general") /\
  (~ vege -> ~ cool -> ~ general -> determine_product_type (Some s) = py "other") /\
  determine_product_type (Some s) ∈ categories /\
  (forall s', lower s' = lower s ->
              determine_product_type (Some s') = determine_product_type (Some s)) /\
  determine_product_type (Some []) = py "other" /\
  determine_product_type None = py "other".
Proof. params.
  intros Hlower vege cool general.
  assert (forall kw t, kw ∈ [py "蔬菜水果类"; py "独家订阅包"; py "冰冻冷藏类"; py "常温类"] ->
            contains kw (lower t) = true <-> substring kw t) as Hkw.
  { intros kw t Hin. apply contains_lower; [done| |].
    - intros ->. vm_compute in Hin.
      repeat (apply elem_of_cons in Hin as [Hin|Hin]; [discriminate|]).
      by apply elem_of_nil in Hin.
    - repeat (apply elem_of_cons in Hin as [->|Hin]);
        [..|by apply elem_of_nil in Hin];
        repeat (apply Forall_cons; split; [vm_compute; reflexivity|]); constructor. }
  assert (forall t, contains (py "蔬菜水果类") t = false ->
            contains (py "独家订阅包") t = false ->
            contains (py "冰冻冷藏类") t = false -> contains (py "常温类") t = false ->
            determine_product_type (Some t) = py "other") as Hother.
  { intros t H1 H2 H3 H4. unfold determine_product_type. cbv zeta. cbn [str].
    rewrite contains_false, <- Hkw, not_true_iff_false in H1, H2, H3, H4 by set_solver.
    by rewrite H1, H2, H3, H4. }
  assert (vege <-> contains (py "蔬菜水果类") (lower s)
                   || contains (py "独家订阅包") (lower s) = true) as Hv.
  { subst vege. rewrite orb_true_iff, !Hkw by set_solver. done. }
  assert (cool <-> contains (py "冰冻冷藏类") (lower s) = true) as Hc.
  { subst cool. by rewrite Hkw by set_solver. }
  assert (general <-> contains (py "常温类") (lower s) = true) as Hg.
  { subst general. by rewrite Hkw by set_solver. }
  assert (forall s', lower s' = lower s ->
            determine_product_type (Some s') = determine_product_type (Some s)) as Hlow.
  { intros s' H. unfold determine_product_type. cbv zeta. cbn [str]. by rewrite H. }
  assert (determine_product_type (Some []) = py "other") as Hempty by by apply Hother.
  assert (determine_product_type None = py "other") as Hnan.
  { change (determine_product_type None) with (determine_product_type (Some (py "nan"))).
    by apply Hother. }
  clearbody vege cool general.
  unfold determine_product_type in Hlow |- *. cbv zeta in Hlow |- *. cbn [str] in Hlow |- *.
  unfold determine_product_type in Hempty, Hnan. cbv zeta in Hempty, Hnan.
  destruct (contains (py "蔬菜水果类") (lower s) || contains (py "独家订阅包") (lower s))
    eqn:E1.
  { split; [|split; [|split; [|split; [|split; [|split]]]]];
      try done; try (intros Hn; destruct Hn; by apply Hv).
    unfold categories. apply elem_of_cons. by left. }
  assert (~ vege) as Hnv by (rewrite Hv; congruence).
  destruct (contains (py "冰冻冷藏类") (lower s)) eqn:E2.
  { split; [|split; [|split; [|split; [|split; [|split]]]]];
      try done; try (intros _ Hn; destruct Hn; by apply Hc).
    unfold categories. rewrite !elem_of_cons. auto. }
  assert (~ cool) as Hnc by (rewrite Hc; congruence).
  destruct (contains (py "常温类") (lower s)) eqn:E3.
  { split; [|split; [|split; [|split; [|split; [|split]]]]];
      try done; try (intros _ _ Hn; destruct Hn; by apply Hg).
    unfold categories. rewrite !elem_of_cons. auto. }
  assert (~ general) as Hng by (rewrite Hg; congruence).
  split; [|split; [|split; [|split; [|split; [|split]]]]]; try done.
  unfold categories. rewrite !elem_of_cons. auto.
Qed.

(** ** The product list *)

(** C8: [df_plist] holds the four columns Title, Tags, Variant SKU and
    Vendor of exactly the product rows that have a tag, in the order of the
    file; no row of it lacks a tag, and every row carries the product type
    of its tags (and the title once more as the join key). *)
Theorem prepare_plist_rows (products_data : list Product.t) :
  let df_plist := prepare_plist products_data in
  (fun e => (Plist.Title e, Plist.Tags e, Plist.Variant_SKU e, Plist.Vendor e)) <$> df_plist
  = (fun p => (Product.Title p, Product.Tags p, Product.Variant_SKU p, Product.Vendor p))
      <$> filter (fun p => Product.Tags p <> None) products_data /\
  Forall (fun e => Plist.Tags e <> None /\
                   Plist.Product_type e = determine_product_type (Plist.Tags e) /\
                   Plist.Lineitem_name e = Plist.Title e) df_plist /\
  (forall p, p ∈ products_data -> Product.Tags p = None ->
             forall e, e ∈ df_plist -> Plist.Tags e <> Product.Tags p).
Proof. params.
  simpl. unfold prepare_plist.
  assert (Forall (fun e => Plist.Tags e <> None /\
            Plist.Product_type e = determine_product_type (Plist.Tags e) /\
            Plist.Lineitem_name e = Plist.Title e)
          (plist_row <$> filter (fun p => Product.Tags p <> None) products_data)) as HF.
  { rewrite Forall_fmap. apply Forall_forall. intros p Hp.
    apply list_elem_of_filter in Hp as [Htag _]. simpl. done. }
  split; [|split; [done|]].
  - rewrite <- list_fmap_compose. done.
  - intros p _ Hp e He. rewrite Hp.
    eapply Forall_forall in HF; [|exact He]. tauto.
Qed.

(** ** The formatter *)

Lemma format_sheet_values (ws : worksheet) :
  sheet_values (format_sheet ws) = sheet_values ws.
Proof.
  unfold sheet_values, format_sheet. simpl. rewrite <- list_fmap_compose.
  apply list_fmap_ext. intros _ row _. simpl. rewrite <- list_fmap_compose.
  by apply list_fmap_ext.
Qed.

(** C9: in the workbook [format_excel_file] saves, every cell of every
    sheet has the alignment left/center and a thin border on its four
    sides, and the first row is frozen (panes at A2); the sheets, their
    names, and the value of every cell (and its font) are those of the
    workbook it has loaded.  (The footer is not among what is kept:
    openpyxl writes it anew.) *)
Theorem format_excel_file_frame (wb : list worksheet) :
  let out := format_excel_file wb in
  Forall (fun ws => freeze_panes ws = Some (py "A2") /\
                    Forall (Forall formatted) (cells ws)) out /\
  title <$> out = title <$> wb /\
  sheet_values <$> out = sheet_values <$> wb /\
  (fun ws => (fun row : list xcell => bold <$> row) <$> cells ws) <$> out
  = (fun ws => (fun row : list xcell => bold <$> row) <$> cells ws) <$> wb.
Proof.
  simpl. unfold format_excel_file. repeat split.
  - rewrite Forall_fmap. apply Forall_forall. intros ws _. simpl. split; [done|].
    rewrite Forall_fmap. apply Forall_forall. intros row _. simpl.
    rewrite Forall_fmap. apply Forall_forall. intros c _. by repeat split.
  - rewrite <- list_fmap_compose. by apply list_fmap_ext.
  - rewrite <- list_fmap_compose. apply list_fmap_ext. intros _ ws _.
    apply format_sheet_values.
  - rewrite <- list_fmap_compose. apply list_fmap_ext. intros _ ws _. simpl.
    rewrite <- list_fmap_compose. apply list_fmap_ext. intros _ row _. simpl.
    rewrite <- list_fmap_compose. by apply list_fmap_ext.
Qed.

(** ** The left merge *)

Section Merge.
Context {L R : Type} (lkey : L -> option (list N)) (rkey : R -> option (list N)).
Local Set Default Proof Using "Type*".
Implicit Types (left : list L) (right : list R).

Lemma elem_of_matches (k : option (list N)) right (y : R) :
  y ∈ matches rkey k right <-> y ∈ right /\ rkey y = k.
Proof. params. unfold matches. rewrite list_elem_of_filter. tauto. Qed.

Lemma length_merge_row right (x : L) :
  length (merge_row lkey rkey right x)
  = Nat.max 1 (length (matches rkey (lkey x) right)).
Proof.
  unfold merge_row. destruct (matches rkey (lkey x) right) as [|y ms]; [done|].
  rewrite length_fmap. simpl. lia.
Qed.

Lemma merge_row_fst right (x : L) :
  (merge_row lkey rkey right x).*1
  = replicate (Nat.max 1 (length (matches rkey (lkey x) right))) x.
Proof.
  assert (forall l : list R, ((fun y => (x, Some y)) <$> l).*1 = replicate (length l) x) as Hl.
  { induction l; simpl; by f_equal. }
  unfold merge_row. destruct (matches rkey (lkey x) right) as [|y ms]; [done|].
  rewrite Hl. f_equal; simpl; lia.
Qed.

Lemma merge_left_cons (x : L) left right :
  merge_left lkey rkey (x :: left) right
  = merge_row lkey rkey right x ++ merge_left lkey rkey left right.
Proof. reflexivity. Qed.

Lemma merge_left_length_ge left right :
  (length left <= length (merge_left lkey rkey left right))%nat.
Proof.
  induction left as [|x left IH]; [done|].
  rewrite merge_left_cons, length_app, length_merge_row. simpl. lia.
Qed.

Lemma merge_left_length_eq left right :
  length (merge_left lkey rkey left right) = length left <->
  Forall (fun x => (length (matches rkey (lkey x) right) <= 1)%nat) left.
Proof.
  induction left as [|x left IH]; [by split; [constructor|]|].
  rewrite merge_left_cons, length_app, length_merge_row, Forall_cons, <- IH.
  pose proof (merge_left_length_ge left right). simpl. lia.
Qed.

Lemma merge_left_fst left right :
  (merge_left lkey rkey left right).*1
  = left ≫= fun x => replicate (Nat.max 1 (length (matches rkey (lkey x) right))) x.
Proof.
  induction left as [|x left IH]; [done|].
  rewrite merge_left_cons, fmap_app, merge_row_fst, IH. done.
Qed.

(** Without a key that has two partners the merge keeps the left table. *)
Lemma merge_left_fst_id left right :
  Forall (fun x => (length (matches rkey (lkey x) right) <= 1)%nat) left ->
  (merge_left lkey rkey left right).*1 = left.
Proof.
  induction 1 as [|x left Hx _ IH]; [done|].
  rewrite merge_left_cons, fmap_app, merge_row_fst, IH.
  replace (Nat.max 1 _) with 1%nat by lia. done.
Qed.

Lemma elem_of_merge_row right (x x' : L) (o : option R) :
  (x', o) ∈ merge_row lkey rkey right x <->
  x' = x /\ match o with
            | Some y => y ∈ matches rkey (lkey x) right
            | None => matches rkey (lkey x) right = []
            end.
Proof. params.
  unfold merge_row. destruct (matches rkey (lkey x) right) as [|y ms] eqn:E.
  - rewrite list_elem_of_singleton. destruct o; [|naive_solver].
    split; [done|]. intros [_ H]. by apply elem_of_nil in H.
  - rewrite list_elem_of_fmap. destruct o as [z|]; naive_solver.
Qed.

Lemma elem_of_merge_left left right (x : L) (o : option R) :
  (x, o) ∈ merge_left lkey rkey left right <->
  x ∈ left /\ match o with
              | Some y => y ∈ matches rkey (lkey x) right
              | None => matches rkey (lkey x) right = []
              end.
Proof.
  unfold merge_left. rewrite list_elem_of_bind. split.
  - intros (x0 & H & Hx0). apply elem_of_merge_row in H as [-> H]. done.
  - intros [Hx H]. exists x. split; [|done]. by apply elem_of_merge_row.
Qed.

(** A filter on the left columns can be taken before or after the merge. *)
Lemma merge_left_filter (P : L -> Prop) `{!forall x, Decision (P x)} left right :
  filter (fun m => P m.1) (merge_left lkey rkey left right)
  = merge_left lkey rkey (filter P left) right.
Proof.
  induction left as [|x left IH]; [done|].
  rewrite merge_left_cons, filter_app, IH, filter_cons.
  assert (forall l : list (L * option R), Forall (fun m => m.1 = x) l ->
            filter (fun m => P m.1) l = if decide (P x) then l else []) as Hrow.
  { induction 1 as [|m l Hm _ IHl]; [by destruct (decide (P x))|].
    rewrite filter_cons, IHl, Hm. by destruct (decide (P x)). }
  rewrite Hrow.
  - destruct (decide (P x)); [by rewrite merge_left_cons|done].
  - apply Forall_forall. intros [x' o] Hm. by apply elem_of_merge_row in Hm as [-> _].
Qed.

End Merge.

Lemma matches_nil_iff {R} (rkey : R -> option (list N)) (k : option (list N))
    (right : list R) :
  matches rkey k right = [] <-> forall y, y ∈ right -> rkey y <> k.
Proof.
  split.
  - intros H y Hy Hk. assert (y ∈ matches rkey k right) as Hin by by apply elem_of_matches.
    rewrite H in Hin. by apply elem_of_nil in Hin.
  - intros H. destruct (matches rkey k right) as [|y ms] eqn:E; [done|].
    assert (y ∈ matches rkey k right) as Hin by (rewrite E; left).
    apply elem_of_matches in Hin as [Hy Hk]. by destruct (H y Hy).
Qed.

(** C4 (amended): the merge of line 40 is a left outer join on the item
    name.  The merged table has at least as many rows as the route table,
    and exactly as many if and only if every item name is the title of at
    most one row of [df_plist].  Every route row is kept, in order, once per
    partner and once when it has none; a row without partner has null
    product columns. *)
Theorem merge_routes_cardinality (route_df : list (Item.t num)) (df_plist : list Plist.t) :
  let out := merge_routes route_df df_plist in
  (length route_df <= length out)%nat /\
  (length out = length route_df <->
   forall r, r ∈ route_df -> (length (partners df_plist r) <= 1)%nat) /\
  out.*1 = (route_df ≫= fun r => replicate (Nat.max 1 (length (partners df_plist r))) r) /\
  (forall r p, (r, Some p) ∈ out <->
     r ∈ route_df /\ p ∈ df_plist /\ Plist.Lineitem_name p = Item.Lineitem_name r) /\
  (forall r, (r, None) ∈ out <->
     r ∈ route_df /\ forall p, p ∈ df_plist -> Plist.Lineitem_name p <> Item.Lineitem_name r).
Proof. params.
  simpl. unfold merge_routes, partners.
  split; [|split; [|split; [|split]]].
  - apply merge_left_length_ge.
  - rewrite merge_left_length_eq. apply Forall_forall.
  - apply merge_left_fst.
  - intros r p. rewrite elem_of_merge_left, elem_of_matches. tauto.
  - intros r. rewrite elem_of_merge_left, matches_nil_iff. tauto.
Qed.

(** ** The rows of process_data *)

Lemma fmap_bind_list {A B C} (f : A -> list B) (g : B -> C) (l : list A) :
  g <$> (l ≫= f) = l ≫= fun x => g <$> f x.
Proof.
  induction l as [|x l IH]; [done|]. by rewrite !bind_cons, fmap_app, IH.
Qed.

Lemma process_data_rows (route_data : list (Route.t num)) (products_data : list Product.t) :
  process_data route_data products_data
  = (filled route_data ≫= final_rows (prepare_plist products_data),
     prepare_plist products_data).
Proof.
  unfold process_data, filled, merge_routes, merge_left, extract_items. f_equal.
  rewrite <- list_fmap_compose, fmap_bind_list, list_fmap_bind. done.
Qed.

Lemma final_rows_not_nil (df_plist : list Plist.t) (r : Route.t num) :
  final_rows df_plist r <> [].
Proof.
  unfold final_rows. intros H. apply fmap_nil_inv in H.
  apply (f_equal length) in H. rewrite length_merge_row in H. simpl in H. lia.
Qed.

Lemma final_rows_columns (df_plist : list Plist.t) (r : Route.t num) :
  Forall (fun f => Final.Driver f = Route.Driver r /\
                   Final.Item_Count f = item_count (Route.Items r) /\
                   Final.Lineitem_name f = lineitem_name (Route.Items r) /\
                   Final.Count f = display_count (item_count (Route.Items r)))
         (final_rows df_plist r).
Proof.
  unfold final_rows. rewrite Forall_fmap. apply Forall_forall.
  intros [x o] H. apply elem_of_merge_row in H as [-> _]. done.
Qed.

(** Every row of the result comes from a row of the filled route table, and
    every row of that table gives at least one. *)
Lemma elem_of_process_data (route_data : list (Route.t num)) (products_data : list Product.t)
    (f : Final.t num) :
  f ∈ (process_data route_data products_data).1 <->
  exists r, r ∈ filled route_data /\ f ∈ final_rows (prepare_plist products_data) r.
Proof. params.
  rewrite process_data_rows. simpl. rewrite list_elem_of_bind. naive_solver.
Qed.

Lemma filled_Items_elem (route_data : list (Route.t num)) (items : option (list N)) :
  (exists r, r ∈ route_data /\ Route.Items r = items) <->
  (exists r, r ∈ filled route_data /\ Route.Items r = items).
Proof. params.
  pose proof (filled_Items route_data) as H.
  assert (forall df : list (Route.t num),
            (exists r, r ∈ df /\ Route.Items r = items) <-> items ∈ Route.Items <$> df) as E.
  { intros df. rewrite list_elem_of_fmap. naive_solver. }
  by rewrite !E, H.
Qed.

(** The item count of every row is NaN or a run of at most three digits,
    and an item name is missing only where the count is. *)
Lemma item_count_name (items : option (list N)) :
  is_Some (item_count items) -> is_Some (lineitem_name items).
Proof. destruct items; simpl; [eauto | by intros [? ?]]. Qed.

Lemma process_data_count_name (route_data : list (Route.t num))
    (products_data : list Product.t) (f : Final.t num) :
  f ∈ (process_data route_data products_data).1 ->
  is_Some (Final.Item_Count f) -> is_Some (Final.Lineitem_name f).
Proof.
  intros (r & _ & Hf)%elem_of_process_data.
  pose proof (final_rows_columns (prepare_plist products_data) r) as H.
  eapply Forall_forall in H as (_ & -> & -> & _); [|exact Hf].
  apply item_count_name.
Qed.

(** ** The two examples of the specification *)

(** C1 (amended): a route row whose Items is the text 2Organic Apples gets
    the item count 2 (the digits found in its first three characters) and
    the item name ganic Apples (the text after its first three characters),
    and its Count is 2; a row whose Items is 1Free Gift gets the item count
    1 and an empty Count.  This holds for each row the merge makes of it,
    whatever the product list. *)
Theorem items_examples (r : Route.t num) (products_data : list Product.t) :
  let out := (process_data [r] products_data).1 in
  out <> [] /\
  (Route.Items r = Some (py "2Organic Apples") ->
   Forall (fun f => Final.Item_Count f = Some (py "2") /\
                    Final.Lineitem_name f = Some (py "ganic Apples") /\
                    Final.Count f = Some (py "2")) out) /\
  (Route.Items r = Some (py "1Free Gift") ->
   Forall (fun f => Final.Item_Count f = Some (py "1") /\
                    Final.Lineitem_name f = Some (py "ee Gift") /\
                    Final.Count f = Some []) out).
Proof.
  cbv zeta. rewrite process_data_rows. cbn [fst].
  destruct (filled [r]) as [|r' [|r'' df]] eqn:E;
    try (apply (f_equal length) in E; unfold filled in E;
         rewrite length_address_processing, length_ffill_cols in E; discriminate).
  assert (Route.Items r' = Route.Items r) as Hitems.
  { pose proof (filled_Items [r]) as H. rewrite E in H. by injection H. }
  simpl. rewrite app_nil_r.
  pose proof (final_rows_columns (prepare_plist products_data) r') as Hcols.
  rewrite Hitems in Hcols.
  split; [apply final_rows_not_nil|].
  split; intros Hr; rewrite Hr in Hcols;
    (eapply Forall_impl; [exact Hcols|]); intros f (_ & -> & -> & ->); by vm_compute.
Qed.

(** ** Exceptions of the packing aggregation *)

Lemma traverse_Ok {A B} (f : A -> result B) (l : list A) (ys : list B) :
  traverse f l = Ok ys -> Forall2 (fun x y => f x = Ok y) l ys.
Proof.
  revert ys. induction l as [|x l IH]; intros ys; simpl.
  - intros [= <-]. constructor.
  - destruct (f x) as [y|e] eqn:Ex; simpl; [|done].
    destruct (traverse f l) as [ys'|e] eqn:El; simpl; [|done].
    intros [= <-]. constructor; auto.
Qed.

Lemma traverse_Raise {A B} (f : A -> result B) (l : list A) (x : A) (e : exn) :
  x ∈ l -> f x = Raise e -> (forall x' e', f x' = Raise e' -> e' = e) ->
  traverse f l = Raise e.
Proof.
  intros Hx Hfx Honly. induction l as [|a l IH]; [by apply elem_of_nil in Hx|].
  simpl. destruct (f a) as [y|e'] eqn:Ea; simpl.
  - apply elem_of_cons in Hx as [->|Hx]; [congruence|]. by rewrite IH.
  - by rewrite (Honly _ _ Ea).
Qed.

Lemma traverse_total {A B} (f : A -> result B) (l : list A) :
  Forall (fun x => exists y, f x = Ok y) l -> exists ys, traverse f l = Ok ys.
Proof.
  induction 1 as [|x l [y Hy] _ [ys Hys]]; simpl; [by eexists|].
  rewrite Hy, Hys. simpl. by eexists.
Qed.

Lemma astype_int_Raise (c : option (list N)) (e : exn) :
  astype_int c = Raise e -> e = ValueError.
Proof.
  unfold astype_int. destruct c as [[|d s]|]; try by intros [= <-].
  destruct (int_digits 0 (d :: s)); [done | by intros [= <-]].
Qed.

Lemma astype_int_Ok (c : option (list N)) (z : Z) :
  astype_int c = Ok z -> exists s, c = Some s /\ s <> [] /\ int_digits 0 s = Some z.
Proof.
  unfold astype_int. destruct c as [[|d s]|]; try done.
  destruct (int_digits 0 (d :: s)) as [z'|] eqn:E; [|done].
  intros [= <-]. by exists (d :: s).
Qed.

Lemma search_digits_None (s : list N) :
  search_digits s = None <-> Forall (fun c => is_digit c = false) s.
Proof. params.
  induction s as [|c s IH]; simpl; [by split; [constructor|]|].
  rewrite Forall_cons. destruct (is_digit c); [naive_solver|].
  rewrite IH. naive_solver.
Qed.

(** C3 (amended): a row whose Items has no digit in its first three
    characters gets a null item count.  [process_data] carries the null
    through the merge and into Count without raising.  The packing
    aggregation does not drop or zero-fill it: [astype(int)] raises
    ValueError on the null, no packing table and no report is made. *)
Theorem null_count_raises (route_data : list (Route.t num)) (products_data : list Product.t)
    (r : Route.t num) (s : list N) :
  r ∈ route_data ->
  Route.Items r = Some s ->
  Forall (fun c => is_digit c = false) (str_slice_to 3 s) ->
  let out := process_data route_data products_data in
  item_count (Route.Items r) = None /\
  (exists f, f ∈ out.1 /\ Final.Item_Count f = None /\ Final.Count f = None) /\
  packing_df out.1 out.2 = Raise ValueError /\
  generate route_data products_data = Raise ValueError.
Proof.
  intros Hr Hs Hnodigit out.
  assert (item_count (Route.Items r) = None) as Hcount.
  { rewrite Hs. simpl. by apply search_digits_None. }
  assert (exists f, f ∈ out.1 /\ Final.Item_Count f = None /\ Final.Count f = None)
    as (f & Hf & Hfc & HfC).
  { destruct (proj1 (filled_Items_elem route_data (Route.Items r))) as (r' & Hr' & Hitems);
      [by exists r|].
    pose proof (final_rows_columns (prepare_plist products_data) r') as Hcols.
    pose proof (final_rows_not_nil (prepare_plist products_data) r') as Hne.
    destruct (final_rows (prepare_plist products_data) r') as [|f fs] eqn:E; [done|].
    apply Forall_cons in Hcols as [(_ & Hc & _ & HC) _].
    exists f. rewrite Hitems, Hcount in Hc, HC. split; [|done].
    apply elem_of_process_data. exists r'. split; [done|]. rewrite E. left. }
  assert (packing_df out.1 out.2 = Raise ValueError) as Hpack.
  { unfold packing_df, count_column.
    rewrite (traverse_Raise _ _ f ValueError); [done|done|by rewrite Hfc|].
    intros x e. apply astype_int_Raise. }
  repeat split; [done|by exists f|done|].
  unfold generate. fold out. destruct out as [route_df df_plist].
  simpl in Hpack. by rewrite Hpack.
Qed.

(** ** The sheets of a report *)

Lemma groupby_keys {A K} `{EqDecision K} (cmp : K -> K -> comparison)
    (key : A -> option K) (df : list A) :
  (groupby cmp key df).*1 = group_keys cmp (omap key df).
Proof.
  unfold groupby. rewrite <- list_fmap_compose. simpl.
  induction (group_keys cmp (omap key df)); simpl; by f_equal.
Qed.

(** A group is never empty. *)
Lemma group_rows_not_nil {A K} `{EqDecision K} (cmp : K -> K -> comparison)
    `{!CmpOrder cmp} (key : A -> option K) (df : list A) (k : K) :
  k ∈ group_keys cmp (omap key df) -> group_rows key k df <> [].
Proof.
  rewrite elem_of_group_keys, list_elem_of_omap by done.
  intros (r & Hr & Hk) Hnil.
  assert (r ∈ group_rows key k df) as Hin by by apply list_elem_of_filter.
  rewrite Hnil in Hin. by apply elem_of_nil in Hin.
Qed.

Lemma write_sheets_Ok (columns : list (list N)) (wb out : list worksheet)
    (groups : list (list N * list (list xval))) :
  write_sheets columns wb groups = Ok out <->
  names_accepted (title <$> wb) groups.*1 /\
  out = wb ++ ((fun g => to_excel columns g.2 g.1) <$> groups).
Proof. params.
  revert wb. induction groups as [|[d final] groups IH]; intros wb; simpl.
  - rewrite app_nil_r. naive_solver.
  - destruct (sheetname_ok (title <$> wb) d) eqn:E; [|naive_solver].
    rewrite IH, fmap_app, <- app_assoc. simpl. naive_solver.
Qed.

Lemma write_report_Ok {A} (columns : list (list N)) (final : list A -> list (list xval))
    (key : A -> option (list N)) (df : list A) (out : list worksheet) :
  write_sheets columns [] ((fun g => (g.1, final g.2)) <$> groupby str_compare key df)
  = Ok out <->
  names_accepted [] (group_keys str_compare (omap key df)) /\
  out = report_sheets columns final key df.
Proof.
  rewrite write_sheets_Ok. unfold report_sheets.
  rewrite <- !list_fmap_compose. simpl.
  change (fst ∘ _) with (@fst (list N) (list A)).
  by rewrite groupby_keys.
Qed.

Lemma report_sheets_titles {A} (columns : list (list N))
    (final : list A -> list (list xval)) (key : A -> option (list N)) (df : list A) :
  title <$> report_sheets columns final key df = group_keys str_compare (omap key df).
Proof.
  unfold report_sheets. rewrite <- list_fmap_compose, <- groupby_keys. done.
Qed.

Lemma format_excel_file_titles (wb : list worksheet) :
  title <$> format_excel_file wb = title <$> wb.
Proof. unfold format_excel_file. rewrite <- list_fmap_compose. done. Qed.

Lemma close_writer_titles (wb : list worksheet) :
  title <$> close_writer wb
  = match title <$> wb with [] => [py "Sheet1"] | names => names end.
Proof. by destruct wb. Qed.

Lemma create_routing_file_Ok (route_df : list (Final.t num)) (wb : list worksheet) :
  create_routing_file route_df = Ok wb <->
  names_accepted [] (group_keys str_compare (omap Final.Driver route_df)) /\
  wb = format_excel_file
         (close_writer (report_sheets routing_columns routing_final Final.Driver route_df)).
Proof.
  unfold create_routing_file.
  destruct (write_sheets _ _ _) as [out|e] eqn:E; simpl.
  - apply write_report_Ok in E as [Hacc ->]. naive_solver.
  - split; [done|]. intros [Hacc _].
    pose proof (proj2 (write_report_Ok routing_columns routing_final Final.Driver
                         route_df _) (conj Hacc eq_refl)) as Hw.
    congruence.
Qed.

Lemma create_packing_file_Ok (packing : list Packing.t) (wb : list worksheet) :
  create_packing_file packing = Ok wb <->
  names_accepted []
    (group_keys str_compare (omap (fun p => Some (Packing.Driver p)) packing)) /\
  wb = format_excel_file
         (close_writer (report_sheets packing_columns packing_final
                          (fun p => Some (Packing.Driver p)) packing)).
Proof. params.
  unfold create_packing_file.
  destruct (write_sheets _ _ _) as [out|e] eqn:E; simpl.
  - apply write_report_Ok in E as [Hacc ->]. naive_solver.
  - split; [done|]. intros [Hacc _].
    pose proof (proj2 (write_report_Ok packing_columns packing_final
                         (fun p => Some (Packing.Driver p)) packing _)
                      (conj Hacc eq_refl)) as Hw.
    congruence.
Qed.

(** ** The packing table *)

Lemma count_column_Ok (route_df : list (Final.t num)) (counted : list (Final.t num * Z)) :
  count_column route_df = Ok counted ->
  counted.*1 = route_df /\
  Forall (fun rc => astype_int (Final.Item_Count rc.1) = Ok rc.2) counted.
Proof.
  unfold count_column.
  destruct (traverse _ route_df) as [counts|e] eqn:E; simpl; [|done].
  intros [= <-]. apply traverse_Ok in E.
  induction E as [|f c route_df counts Hfc _ [IH1 IH2]]; simpl; [done|].
  split; [by f_equal | by constructor].
Qed.

Lemma packing_df_Ok (route_df : list (Final.t num)) (df_plist : list Plist.t)
    (packing : list Packing.t) :
  packing_df route_df df_plist = Ok packing ->
  exists counted,
    count_column route_df = Ok counted /\
    packing = sort_values packing_compare packing_sort_key
                (merge_packing (sum_counts counted) df_plist).
Proof.
  unfold packing_df. destruct (count_column route_df) as [counted|e]; simpl; [|done].
  intros [= <-]. by exists counted.
Qed.

Lemma elem_of_sum_counts (counted : list (Final.t num * Z)) (s : Summed.t) :
  s ∈ sum_counts counted <->
  exists k, k ∈ group_keys (pair_compare str_compare str_compare)
                  (omap (fun rc => packing_key rc.1) counted) /\
            s = summed_row k (snd <$> group_rows (fun rc => packing_key rc.1) k counted).
Proof. params.
  unfold sum_counts, groupby. rewrite <- list_fmap_compose, list_elem_of_fmap.
  naive_solver.
Qed.

Lemma elem_of_merge_packing (grouped : list Summed.t) (df_plist : list Plist.t)
    (s : Summed.t) :
  (exists p, p ∈ merge_packing grouped df_plist /\ Packing.summed p = s) <-> s ∈ grouped.
Proof.
  unfold merge_packing. split.
  - intros (p & Hp & <-). apply list_elem_of_fmap in Hp as ([s' o] & -> & Hm).
    by apply elem_of_merge_left in Hm as [? _].
  - intros Hs.
    destruct (matches Plist.Lineitem_name (Some (Summed.Lineitem_name s)) df_plist)
      as [|y ms] eqn:E.
    + exists (Packing.mk s None). split; [|done].
      apply list_elem_of_fmap. exists (s, None). split; [done|].
      by apply elem_of_merge_left.
    + exists (Packing.mk s (Some y)). split; [|done].
      apply list_elem_of_fmap. exists (s, Some y). split; [done|].
      apply elem_of_merge_left. split; [done|]. rewrite E. left.
Qed.

Lemma packing_key_Some (f : Final.t num) (d n : list N) :
  packing_key f = Some (d, n) <-> Final.Driver f = Some d /\ Final.Lineitem_name f = Some n.
Proof. params.
  unfold packing_key. destruct (Final.Driver f), (Final.Lineitem_name f); naive_solver.
Qed.

(** The drivers of the packing table are the drivers of the route table,
    provided no counted row lacks its item name. *)
Lemma packing_drivers (route_df : list (Final.t num)) (df_plist : list Plist.t)
    (packing : list Packing.t) (d : list N) :
  packing_df route_df df_plist = Ok packing ->
  (forall f, f ∈ route_df -> is_Some (Final.Item_Count f) ->
             is_Some (Final.Lineitem_name f)) ->
  (exists p, p ∈ packing /\ Packing.Driver p = d) <->
  (exists f, f ∈ route_df /\ Final.Driver f = Some d).
Proof.
  intros (counted & Hcount & ->)%packing_df_Ok Hname.
  apply count_column_Ok in Hcount as [Hfst Hint].
  assert (forall f, f ∈ route_df <-> exists c, (f, c) ∈ counted) as Hin.
  { intros f. rewrite <- Hfst, list_elem_of_fmap. split.
    - intros ([f' c] & -> & H). by exists c.
    - intros [c H]. by exists (f, c). }
  split.
  - intros (p & Hp & <-). rewrite (sort_values_perm packing_compare) in Hp.
    assert (Packing.summed p ∈ sum_counts counted) as Hs.
    { apply (elem_of_merge_packing _ df_plist). by exists p. }
    apply elem_of_sum_counts in Hs as ([d n] & Hk & Hs).
    apply elem_of_group_keys in Hk; try apply _.
    apply list_elem_of_omap in Hk as ([f c] & Hfc & Hkey). simpl in Hkey.
    apply packing_key_Some in Hkey as [Hd _].
    exists f. split; [apply Hin; by exists c|].
    unfold Packing.Driver. by rewrite Hs.
  - intros (f & Hf & Hd). apply Hin in Hf as [c Hfc].
    eapply Forall_forall in Hint; [|exact Hfc]. simpl in Hint.
    apply astype_int_Ok in Hint as (s & Hs & _).
    destruct (Hname f) as [n Hn]; [apply Hin; by exists c | by rewrite Hs |].
    pose (k := (d, n)).
    assert (k ∈ group_keys (pair_compare str_compare str_compare)
                  (omap (fun rc => packing_key rc.1) counted)) as Hk.
    { apply elem_of_group_keys; try apply _. apply list_elem_of_omap.
      exists (f, c). split; [done|]. by apply packing_key_Some. }
    destruct (proj2 (elem_of_merge_packing (sum_counts counted) df_plist
                (summed_row k (snd <$> group_rows (fun rc => packing_key rc.1) k counted))))
      as (p & Hp & Hsum).
    { apply elem_of_sum_counts. by exists k. }
    exists p. split; [by rewrite (sort_values_perm packing_compare)|].
    unfold Packing.Driver. by rewrite Hsum.
Qed.

(** ** The order of the sheets *)

Lemma elem_of_drivers (route_df : list (Final.t num)) (d : list N) :
  d ∈ drivers route_df <-> exists f, f ∈ route_df /\ Final.Driver f = Some d.
Proof. unfold drivers. by rewrite elem_of_group_keys, list_elem_of_omap by apply _. Qed.

Lemma generate_Ok (route_file : list (Route.t num)) (products_file : list Product.t)
    (routing packing : list worksheet) :
  generate route_file products_file = Ok (routing, packing) ->
  let out := process_data route_file products_file in
  exists packing_rows,
    packing_df out.1 out.2 = Ok packing_rows /\
    create_routing_file out.1 = Ok routing /\
    create_packing_file packing_rows = Ok packing.
Proof.
  unfold generate. destruct (process_data route_file products_file) as [route_df df_plist].
  simpl. destruct (packing_df route_df df_plist) as [rows|e] eqn:E1; simpl; [|done].
  destruct (create_routing_file route_df) as [r|e] eqn:E2; simpl; [|done].
  destruct (create_packing_file rows) as [p|e] eqn:E3; simpl; [|done].
  intros [= <- <-]. exists rows. by rewrite E3.
Qed.

Lemma packing_drivers_eq (route_file : list (Route.t num)) (products_file : list Product.t)
    (packing_rows : list Packing.t) :
  let out := process_data route_file products_file in
  packing_df out.1 out.2 = Ok packing_rows ->
  group_keys str_compare (omap (fun p => Some (Packing.Driver p)) packing_rows)
  = drivers out.1.
Proof.
  intros out Hpack. apply group_keys_ext; try apply _. intros d.
  rewrite !list_elem_of_omap.
  pose proof (packing_drivers _ _ _ d Hpack) as Hd.
  rewrite <- Hd.
  - split; intros (p & Hp & Hpd); exists p; split; congruence.
  - intros f Hf. exact (process_data_count_name _ _ _ Hf).
Qed.

(** C10: in both workbooks the sheets of the drivers stand in ascending
    order of the driver name (the order of the sorted group keys, whatever
    the order of the rows), one sheet per driver, and the two workbooks list
    the same names in the same order.  (Without any driver, each workbook
    is XlsxWriter's single empty sheet.) *)
Theorem sheets_in_driver_order (route_file : list (Route.t num))
    (products_file : list Product.t) (routing packing : list worksheet) :
  generate route_file products_file = Ok (routing, packing) ->
  let names := drivers (process_data route_file products_file).1 in
  StronglySorted (cmp_lt str_compare) names /\
  title <$> routing = title <$> packing /\
  (names <> [] -> title <$> routing = names) /\
  (names = [] -> title <$> routing = [py "Sheet1"]).
Proof.
  intros (rows & Hpack & Hrouting & Hpacking)%generate_Ok names.
  apply create_routing_file_Ok in Hrouting as [_ ->].
  apply create_packing_file_Ok in Hpacking as [_ ->].
  rewrite !format_excel_file_titles, !close_writer_titles, !report_sheets_titles.
  rewrite (packing_drivers_eq _ _ _ Hpack). subst names. unfold drivers.
  split; [apply group_keys_sorted, _|]. split; [done|].
  destruct (group_keys _ _) as [|d l]; split; done.
Qed.

(** ** The sheet of a driver and its total row *)

Lemma filter_fmap {A B} (f : A -> B) (P : B -> Prop) `{!forall y, Decision (P y)}
    (l : list A) :
  filter P (f <$> l) = f <$> filter (fun x => P (f x)) l.
Proof.
  induction l as [|x l IH]; [done|].
  rewrite fmap_cons, !filter_cons, IH. by destruct (decide (P (f x))).
Qed.

Lemma filter_eq_NoDup {K} `{EqDecision K} (ks : list K) (d : K) :
  NoDup ks -> d ∈ ks -> filter (fun k => k = d) ks = [d].
Proof. params.
  induction 1 as [|k ks Hk Hnd IH]; [by intros ?%elem_of_nil|].
  rewrite filter_cons. intros [->|Hd]%elem_of_cons.
  - rewrite decide_True by done. f_equal.
    clear IH Hnd. induction ks as [|k' ks IH]; [done|].
    rewrite filter_cons, decide_False; [apply IH|]; set_solver.
  - rewrite decide_False by (intros ->; done). by apply IH.
Qed.

Lemma omap_cons {A B} (f : A -> option B) (x : A) (l : list A) :
  omap f (x :: l) = match f x with Some y => y :: omap f l | None => omap f l end.
Proof. reflexivity. Qed.

Lemma to_excel_values (columns : list (list N)) (final : list (list xval)) (d : list N) :
  sheet_values (format_sheet (to_excel columns final d)) = (XText <$> columns) :: final.
Proof.
  rewrite format_sheet_values. unfold sheet_values, to_excel. simpl. f_equal.
  - rewrite <- list_fmap_compose. done.
  - rewrite <- list_fmap_compose. rewrite <- (list_fmap_id final) at 2.
    apply list_fmap_ext. intros _ row _. simpl.
    rewrite <- list_fmap_compose. rewrite <- (list_fmap_id row) at 2. done.
Qed.

Lemma close_writer_id (wb : list worksheet) : wb <> [] -> close_writer wb = wb.
Proof. by destruct wb. Qed.

(** A driver of the table has exactly one sheet in the report, the one
    written for its group. *)
Lemma report_sheet_of {A} (columns : list (list N)) (final : list A -> list (list xval))
    (key : A -> option (list N)) (df : list A) (d : list N) :
  d ∈ group_keys str_compare (omap key df) ->
  filter (fun ws => title ws = d)
         (format_excel_file (close_writer (report_sheets columns final key df)))
  = [format_sheet (to_excel columns (final (group_rows key d df)) d)].
Proof.
  intros Hd. unfold report_sheets, groupby. rewrite <- list_fmap_compose.
  pose proof (group_keys_NoDup str_compare (omap key df)) as Hnd.
  rewrite close_writer_id.
  - unfold format_excel_file. rewrite <- list_fmap_compose, filter_fmap. simpl.
    by rewrite filter_eq_NoDup.
  - intros Hnil%fmap_nil_inv. rewrite Hnil in Hd. by apply elem_of_nil in Hd.
Qed.

(** ** Sums *)

Lemma sumZ_cons (x : Z) (l : list Z) : sumZ (x :: l) = x + sumZ l.
Proof. reflexivity. Qed.

Lemma sumZ_app (l1 l2 : list Z) : sumZ (l1 ++ l2) = sumZ l1 + sumZ l2.
Proof.
  induction l1 as [|x l1 IH]; [done|].
  rewrite <- app_comm_cons, !sumZ_cons, IH. lia.
Qed.

#[global] Instance sumZ_perm : Proper ((≡ₚ) ==> (=)) sumZ.
Proof. induction 1; rewrite ?sumZ_cons; lia. Qed.

Lemma sumZ_fmap_add {A} (f g : A -> Z) (l : list A) :
  sumZ ((fun x => f x + g x) <$> l) = sumZ (f <$> l) + sumZ (g <$> l).
Proof.
  induction l as [|x l IH]; [done|]. rewrite !fmap_cons, !sumZ_cons, IH. lia.
Qed.

Lemma sumZ_fmap_zero {A} (f : A -> Z) (l : list A) :
  (forall x, x ∈ l -> f x = 0) -> sumZ (f <$> l) = 0.
Proof.
  induction l as [|x l IH]; intros H; [done|].
  rewrite fmap_cons, sumZ_cons, H, IH; [done| |left]. intros y Hy. apply H. by right.
Qed.

Lemma sumZ_bound (b : Z) (l : list Z) :
  Forall (fun c => 0 <= c <= b) l -> 0 <= sumZ l <= b * Z.of_nat (length l).
Proof.
  induction 1 as [|c l Hc _ IH]; [simpl; lia|].
  rewrite sumZ_cons, length_cons, Nat2Z.inj_succ. nia.
Qed.

Lemma wrap64_small (z : Z) : - 2 ^ 63 <= z < 2 ^ 63 -> wrap64 z = z.
Proof. intros H. unfold wrap64. rewrite Z.mod_small; lia. Qed.

#[global] Instance on_key_dec {A K} (key : A -> option K) (Q : K -> Prop)
    `{!forall k, Decision (Q k)} (a : A) : Decision (on_key key Q a).
Proof. unfold on_key. destruct (key a); apply _. Defined.

Lemma sumZ_indicator {K} `{EqDecision K} (ks : list K) (k0 : K) (x : Z) :
  NoDup ks ->
  sumZ ((fun k => if decide (Some k0 = Some k) then x else 0) <$> ks)
  = if decide (k0 ∈ ks) then x else 0.
Proof.
  induction 1 as [|k ks Hk Hnd IH]; [done|].
  rewrite fmap_cons, sumZ_cons, IH.
  destruct (decide (Some k0 = Some k)) as [[= ->]|Hne].
  - rewrite (decide_False (P := k ∈ ks)) by done.
    rewrite decide_True by left. lia.
  - destruct (decide (k0 ∈ ks)).
    + rewrite decide_True by by right. lia.
    + rewrite decide_False; [lia|]. intros [->|?]%elem_of_cons; done.
Qed.

Lemma sum_groups {A K} `{EqDecision K} (key : A -> option K) (val : A -> Z)
    (Q : K -> Prop) `{!forall k, Decision (Q k)} (ks : list K) (l : list A) :
  NoDup ks ->
  (forall k, k ∈ ks -> Q k) ->
  (forall a k, a ∈ l -> key a = Some k -> Q k -> k ∈ ks) ->
  sumZ ((fun k => sumZ (val <$> group_rows key k l)) <$> ks)
  = sumZ (val <$> filter (on_key key Q) l).
Proof. params.
  intros Hnd HQ. induction l as [|a l IH]; intros Hin.
  - rewrite sumZ_fmap_zero; done.
  - assert (sumZ ((fun k => sumZ (val <$> group_rows key k (a :: l))) <$> ks)
            = sumZ ((fun k => (if decide (key a = Some k) then val a else 0)
                              + sumZ (val <$> group_rows key k l)) <$> ks)) as ->.
    { f_equal. apply list_fmap_ext. intros _ k _. unfold group_rows.
      rewrite filter_cons. by destruct (decide (key a = Some k)). }
    rewrite sumZ_fmap_add, IH by (intros a' k Ha'; apply Hin; by right).
    rewrite filter_cons.
    destruct (key a) as [k0|] eqn:Ek.
    + rewrite sumZ_indicator by done.
      destruct (decide (Q k0)) as [Hq|Hq].
      * rewrite decide_True by (eapply Hin; [left|done|done]).
        rewrite decide_True by (unfold on_key; by rewrite Ek).
        by rewrite fmap_cons, sumZ_cons.
      * rewrite decide_False by (intros Hk; by apply HQ in Hk).
        rewrite decide_False by (unfold on_key; by rewrite Ek). lia.
    + rewrite sumZ_fmap_zero by (intros k _; by destruct (decide (None = Some k))).
      rewrite decide_False by (unfold on_key; rewrite Ek; tauto). lia.
Qed.

Lemma filter_ext_in {A} (P Q : A -> Prop) `{!forall x, Decision (P x)}
    `{!forall x, Decision (Q x)} (l : list A) :
  (forall x, x ∈ l -> P x <-> Q x) -> filter P l = filter Q l.
Proof.
  induction l as [|x l IH]; intros Heq; [done|].
  rewrite !filter_cons, IH by (intros y Hy; apply Heq; by right).
  destruct (decide (P x)) as [Hp|Hp], (decide (Q x)) as [Hq|Hq]; try done.
  - destruct Hq. apply Heq; [left|done].
  - destruct Hp. apply Heq; [left|done].
Qed.

Lemma sumZ_filter_le {A} (val : A -> Z) (P : A -> Prop) `{!forall x, Decision (P x)}
    (l : list A) :
  Forall (fun a => 0 <= val a) l ->
  0 <= sumZ (val <$> filter P l) <= sumZ (val <$> l).
Proof.
  induction 1 as [|a l Ha _ IH]; [done|].
  rewrite filter_cons, fmap_cons, sumZ_cons.
  destruct (decide (P a)); rewrite ?fmap_cons, ?sumZ_cons; lia.
Qed.

(** ** The total rows *)

Lemma xlsx_integer_exact (z : Z) : Z.abs z < 2 ^ 53 -> xlsx_integer z = z.
Proof. params.
  intros Hz.
  assert (float64_of_int z = z) as Hfloat.
  { unfold float64_of_int. cbv zeta.
    replace (Z.log2 (Z.abs z) - 52 <=? 0) with true; [done|].
    symmetry. apply Z.leb_le.
    destruct (decide (Z.abs z = 0)) as [->|Hne]; [done|].
    assert (Z.log2 (Z.abs z) < 53); [|lia].
    apply Z.log2_lt_pow2; lia. }
  unfold xlsx_integer. rewrite Hfloat. unfold sixteen_digits.
  replace (Z.abs z <? 10 ^ 16) with true; [done|].
  symmetry. apply Z.ltb_lt. assert (2 ^ 53 < 10 ^ 16) by done. lia.
Qed.

Lemma xnum_at_column (j : nat) {A} (row : A -> list xval) (get : A -> option num)
    (group : list A) :
  (forall r, row r !! j = Some (num_val (get r))) ->
  Forall (fun c => forall x, c = Some x -> xlsx_number x = x) (get <$> group) ->
  xnum_at j <$> (row <$> group) = get <$> group.
Proof.
  intros Hrow Hexact. rewrite <- list_fmap_compose.
  apply Forall_fmap_ext_1. rewrite Forall_fmap in Hexact.
  eapply Forall_impl; [exact Hexact|]. intros r Hr. simpl in *.
  unfold xnum_at. rewrite Hrow. destruct (get r) as [x|]; [|done].
  simpl. by rewrite (Hr x).
Qed.

Lemma xint_at_column (j : nat) {A} (row : A -> list xval) (get : A -> Z) (group : list A) :
  (forall r, row r !! j = Some (int_val (get r))) ->
  Forall (fun c => Z.abs c < 2 ^ 53) (get <$> group) ->
  omap (xint_at j) (row <$> group) = get <$> group.
Proof.
  intros Hrow Hexact. induction group as [|r group IH]; [done|].
  rewrite fmap_cons in Hexact. apply Forall_cons in Hexact as [Hr Hexact].
  rewrite !fmap_cons, omap_cons, IH by done.
  unfold xint_at. rewrite Hrow. unfold int_val. by rewrite xlsx_integer_exact.
Qed.


(** ** The size of an item count *)

Lemma digit_in_range (zeros : list N) (c : N) (d : Z) :
  digit_in zeros c = Some d -> 0 <= d <= 9.
Proof.
  induction zeros as [|z zeros IH]; simpl; [done|].
  destruct ((z <=? c)%N && (c <? z + 10)%N) eqn:E; [|done].
  apply andb_true_iff in E as [H1%N.leb_le H2%N.ltb_lt]. intros [= <-]. lia.
Qed.

Lemma int_digits_bound (s : list N) (acc z : Z) :
  int_digits acc s = Some z -> 0 <= acc ->
  acc * 10 ^ Z.of_nat (length s) <= z < (acc + 1) * 10 ^ Z.of_nat (length s).
Proof.
  revert acc. induction s as [|c s IH]; intros acc; simpl int_digits.
  - intros [= <-] _. simpl. lia.
  - destruct (digit_value c) as [d|] eqn:Ed; [|done].
    apply digit_in_range in Ed. intros H Hacc.
    apply IH in H; [|lia].
    rewrite length_cons, Nat2Z.inj_succ, Z.pow_succ_r by lia.
    assert (0 < 10 ^ Z.of_nat (length s)) by (apply Z.pow_pos_nonneg; lia).
    nia.
Qed.

Lemma length_take_while {A} (p : A -> bool) (l : list A) :
  (length (take_while p l) <= length l)%nat.
Proof. induction l as [|x l IH]; simpl; [done|]. destruct (p x); simpl; lia. Qed.

Lemma search_digits_length (s ds : list N) :
  search_digits s = Some ds -> (length ds <= length s)%nat.
Proof.
  induction s as [|c s IH]; simpl; [done|].
  destruct (is_digit c).
  - intros [= <-]. simpl. pose proof (length_take_while is_digit s). lia.
  - intros H%IH. lia.
Qed.

(** An item count is read from three characters: it is below 1000. *)
Lemma item_count_bound (items : option (list N)) (z : Z) :
  astype_int (item_count items) = Ok z -> 0 <= z <= 999.
Proof.
  intros (ds & Hds & _ & Hint)%astype_int_Ok.
  destruct items as [s|]; [|done].
  change (item_count (Some s)) with (search_digits (take 3 s)) in Hds.
  apply search_digits_length in Hds. rewrite length_take in Hds.
  apply int_digits_bound in Hint; [|lia].
  assert (10 ^ Z.of_nat (length ds) <= 10 ^ 3) by (apply Z.pow_le_mono_r; lia).
  lia.
Qed.

(** ** Conservation of the counts *)

Lemma process_data_count_bound (route_data : list (Route.t num))
    (products_data : list Product.t) (f : Final.t num) (z : Z) :
  f ∈ (process_data route_data products_data).1 ->
  astype_int (Final.Item_Count f) = Ok z -> 0 <= z <= 999.
Proof.
  intros (r & _ & Hf)%elem_of_process_data.
  pose proof (final_rows_columns (prepare_plist products_data) r) as H.
  eapply Forall_forall in H as (_ & -> & _); [|exact Hf].
  apply item_count_bound.
Qed.

(** The sum of a group of counts does not leave the int64 range. *)
Lemma sum_int64_exact {A} (val : A -> Z) (P : A -> Prop) `{!forall x, Decision (P x)}
    (l : list A) :
  Forall (fun a => 0 <= val a <= 999) l ->
  Z.of_nat (length l) < 2 ^ 53 ->
  sum_int64 (val <$> filter P l) = sumZ (val <$> filter P l).
Proof.
  intros Hval Hlen. apply wrap64_small.
  pose proof (sumZ_filter_le val P l) as H1.
  pose proof (sumZ_bound 999 (val <$> l)) as H2.
  rewrite Forall_fmap, length_fmap in H2.
  specialize (H2 Hval).
  assert (Forall (fun a => 0 <= val a) l) as H0.
  { eapply Forall_impl; [exact Hval|]. simpl. lia. }
  specialize (H1 H0).
  assert (999 * 2 ^ 53 < 2 ^ 63) by done.
  lia.
Qed.

(** The rows of a driver in the grouped table sum to the counts of the
    driver's rows that have an item name. *)
Lemma sum_counts_driver (counted : list (Final.t num * Z)) (d : list N) :
  Forall (fun rc => 0 <= rc.2 <= 999) counted ->
  Z.of_nat (length counted) < 2 ^ 53 ->
  sumZ (Summed.Count <$> filter (fun s => Summed.Driver s = d) (sum_counts counted))
  = sumZ (snd <$> filter (on_key (fun rc => packing_key rc.1) (fun k => k.1 = d)) counted).
Proof.
  intros Hval Hlen. unfold sum_counts, groupby.
  rewrite <- list_fmap_compose, filter_fmap, <- list_fmap_compose.
  set (keys := group_keys (pair_compare str_compare str_compare)
                 (omap (fun rc => packing_key rc.1) counted)).
  rewrite <- (sum_groups (fun rc : Final.t num * Z => packing_key rc.1) snd
                (fun k => k.1 = d) (filter (fun k => k.1 = d) keys) counted).
  - f_equal. apply list_fmap_ext. intros _ k _. simpl.
    unfold sum_int64, group_rows. apply (sum_int64_exact snd); done.
  - apply NoDup_filter, group_keys_NoDup, _.
  - intros k Hk. by apply list_elem_of_filter in Hk as [? _].
  - intros rc k Hrc Hkey Hk. apply list_elem_of_filter. split; [done|].
    apply elem_of_group_keys; try apply _. apply list_elem_of_omap. by exists rc.
Qed.

(** C7 (amended): for a driver none of whose item names is the title of
    two product rows, the Count column of the driver's packing rows sums to
    the item counts of the driver's merged route rows; and the packing table
    is sorted ascending by (driver, product type, SKU, item name), a null
    product type or SKU after every value.  (The table has fewer than 2^53
    rows, so that no int64 sum wraps.) *)
Theorem packing_count_conserving (route_file : list (Route.t num))
    (products_file : list Product.t) (packing : list Packing.t) (d : list N) :
  let out := process_data route_file products_file in
  packing_df out.1 out.2 = Ok packing ->
  Z.of_nat (length out.1) < 2 ^ 53 ->
  (forall f, f ∈ out.1 -> Final.Driver f = Some d ->
     (length (matches Plist.Lineitem_name (Final.Lineitem_name f) out.2) <= 1)%nat) ->
  sumZ (Packing.Count <$> filter (fun p => Packing.Driver p = d) packing)
  = sumZ (count_of <$> filter (fun f => Final.Driver f = Some d) out.1) /\
  StronglySorted (key_le packing_compare packing_sort_key) packing.
Proof.
  intros out Hpack Hlen Hone.
  pose proof Hpack as (counted & Hcount & ->)%packing_df_Ok.
  split; [|apply sort_values_sorted; apply _].
  apply count_column_Ok in Hcount as [Hfst Hint].
  assert (forall f c, (f, c) ∈ counted -> f ∈ out.1) as Hin.
  { intros f c H. rewrite <- Hfst. apply list_elem_of_fmap. by exists (f, c). }
  assert (Forall (fun rc => 0 <= rc.2 <= 999) counted) as Hval.
  { apply Forall_forall. intros [f c] Hfc. simpl.
    eapply Forall_forall in Hint; [|exact Hfc].
    eapply process_data_count_bound; [by eapply Hin | exact Hint]. }
  assert (length counted = length out.1) as Hlen' by by rewrite <- Hfst, length_fmap.
  (* the sort is a permutation *)
  rewrite (sort_values_perm packing_compare).
  (* the merge adds no row for this driver *)
  unfold merge_packing. rewrite filter_fmap, <- list_fmap_compose.
  rewrite (list_filter_iff _ (fun m => Summed.Driver m.1 = d)) by done.
  pose proof (merge_left_filter (fun s => Some (Summed.Lineitem_name s))
                Plist.Lineitem_name (fun s => Summed.Driver s = d)
                (sum_counts counted) out.2) as Hfilter.
  cbv beta in Hfilter. rewrite Hfilter. clear Hfilter.
  change (Packing.Count ∘ _) with (Summed.Count ∘ (@fst Summed.t (option Plist.t))).
  rewrite list_fmap_compose, merge_left_fst_id.
  2:{ apply Forall_forall. intros s [Hsd Hs]%list_elem_of_filter.
      apply elem_of_sum_counts in Hs as ([d' n] & Hk & ->). simpl in *. subst d'.
      apply elem_of_group_keys in Hk; try apply _.
      apply list_elem_of_omap in Hk as ([f c] & Hfc & Hkey). simpl in Hkey.
      apply packing_key_Some in Hkey as [Hfd Hfn].
      rewrite <- Hfn. apply Hone; [by eapply Hin | done]. }
  (* the groups of the driver partition its rows *)
  rewrite sum_counts_driver by (done || lia).
  rewrite (filter_ext_in _ (fun rc => Final.Driver rc.1 = Some d)).
  2:{ intros [f c] Hfc. unfold on_key. simpl. split.
      - destruct (packing_key f) as [[d' n]|] eqn:Ek; [|done]. simpl. intros ->.
        by apply packing_key_Some in Ek as [? _].
      - intros Hfd.
        eapply Forall_forall in Hint; [|exact Hfc]. simpl in Hint.
        destruct (process_data_count_name route_file products_file f) as [n Hn].
        { by eapply Hin. }
        { apply astype_int_Ok in Hint as (s & -> & _). eauto. }
        rewrite (proj2 (packing_key_Some f d n)); done. }
  (* the count of a row is its item count *)
  rewrite <- Hfst, filter_fmap, <- list_fmap_compose.
  f_equal. apply Forall_fmap_ext_1. apply Forall_forall.
  intros [f c] [_ Hfc]%list_elem_of_filter.
  eapply Forall_forall in Hint; [|exact Hfc]. simpl in *.
  unfold count_of. by rewrite Hint.
Qed.

(** ** When the reports are made *)

Lemma take_while_Forall {A} (p : A -> bool) (l : list A) :
  Forall (fun x => p x = true) (take_while p l).
Proof.
  induction l as [|x l IH]; simpl; [constructor|].
  destruct (p x) eqn:E; by constructor.
Qed.

Lemma search_digits_digits (s ds : list N) :
  search_digits s = Some ds -> ds <> [] /\ Forall (fun c => is_digit c = true) ds.
Proof.
  induction s as [|c s IH]; simpl; [done|].
  destruct (is_digit c) eqn:E; [|done].
  intros [= <-]. split; [done|]. constructor; [done|apply take_while_Forall].
Qed.

Lemma int_digits_total (ds : list N) (acc : Z) :
  Forall (fun c => is_digit c = true) ds -> exists z, int_digits acc ds = Some z.
Proof.
  intros H. revert acc. induction H as [|c ds Hc _ IH]; intros acc; simpl; [eauto|].
  unfold is_digit in Hc. apply bool_decide_eq_true in Hc as [d ->]. apply IH.
Qed.

Lemma astype_int_item_count (items : option (list N)) :
  is_Some (item_count items) -> exists z, astype_int (item_count items) = Ok z.
Proof.
  intros [ds Hds]. rewrite Hds. destruct items as [s|]; [|done].
  apply search_digits_digits in Hds as [Hne Hdigits].
  destruct (int_digits_total ds 0 Hdigits) as [z Hz].
  exists z. unfold astype_int. destruct ds; [done|]. by rewrite Hz.
Qed.


Lemma ffill_from_Forall {A} (P : A -> Prop) (last : option A) (col : list (option A)) :
  (forall v, last = Some v -> P v) ->
  Forall (fun x => forall v, x = Some v -> P v) col ->
  Forall (fun x => forall v, x = Some v -> P v) (ffill_from last col).
Proof.
  intros Hlast Hcol. revert last Hlast.
  induction Hcol as [|x col Hx _ IH]; intros last Hlast; simpl; [constructor|].
  destruct x as [v|]; constructor; auto.
Qed.

Lemma before_comma_no_comma (s : list N) : 44%N ∉ before_comma s.
Proof.
  unfold before_comma. intros Hin.
  pose proof (take_while_Forall (fun c => negb (c =? 44)%N) s) as H.
  eapply Forall_forall in H; [|exact Hin]. done.
Qed.

Lemma final_rows_route (df_plist : list Plist.t) (r : Route.t num) :
  Forall (fun f => Final.Stop f = Route.Stop r /\
                   Final.Shipping_name f = Route.Shipping_name r /\
                   Final.Address f = Route.Address r /\
                   Final.Total_items f = Route.Total_items r /\
                   Final.Note f = Route.Note r /\
                   Final.time f = Route.time r /\
                   Final.dist f = Route.dist r)
         (final_rows df_plist r).
Proof.
  unfold final_rows. rewrite Forall_fmap. apply Forall_forall.
  intros [x o] H. apply elem_of_merge_row in H as [-> _]. done.
Qed.

(** X2: every address of the result of [process_data] is free of commas: it
    is cut before its first comma (line 27). *)
Theorem address_without_comma (route_data : list (Route.t num))
    (products_data : list Product.t) (f : Final.t num) (s : list N) :
  f ∈ (process_data route_data products_data).1 ->
  Final.Address f = Some s ->
  44%N ∉ s.
Proof. params.
  intros (r & Hr & Hf)%elem_of_process_data Hs.
  pose proof (final_rows_route (prepare_plist products_data) r) as Hcols.
  eapply Forall_forall in Hcols as (_ & _ & Ha & _); [|exact Hf].
  rewrite Ha in Hs. clear Ha Hf f.
  assert (Forall (fun x : option (list N) => forall v, x = Some v -> 44%N ∉ v)
                 (Route.Address <$> filled route_data)) as Hall.
  { unfold filled. rewrite address_processing_Address.
    apply ffill_from_Forall; [done|].
    rewrite Forall_fmap. apply Forall_forall. intros r' _ v Hv. simpl in Hv.
    destruct (Route.Address r') as [a|]; [|done].
    injection Hv as <-. apply before_comma_no_comma. }
  rewrite Forall_fmap in Hall.
  eapply Forall_forall in Hall; [|exact Hr]. by apply Hall.
Qed.

(** X3: in the result of [process_data] the Count of a row is the empty
    text exactly when its Item Count is the text 1, and is the Item Count
    itself (a run of digits, or NaN) otherwise (line 43). *)
Theorem count_blank_iff_one (route_data : list (Route.t num))
    (products_data : list Product.t) (f : Final.t num) :
  f ∈ (process_data route_data products_data).1 ->
  (Final.Count f = Some [] <-> Final.Item_Count f = Some (py "1")) /\
  (Final.Item_Count f <> Some (py "1") -> Final.Count f = Final.Item_Count f).
Proof. params.
  intros (r & Hr & Hf)%elem_of_process_data.
  pose proof (final_rows_columns (prepare_plist products_data) r) as Hcols.
  eapply Forall_forall in Hcols as (_ & Hi & _ & Hc); [|exact Hf].
  rewrite Hc, Hi. clear Hc Hi Hf f. unfold display_count.
  destruct (decide (item_count (Route.Items r) = Some (py "1"))) as [E|E].
  - split; [done|]. intros H. by destruct H.
  - split; [|done]. split; [|done].
    intros H. unfold item_count in H.
    destruct (Route.Items r) as [items|]; [|done]. simpl in H.
    by apply search_digits_digits in H as [? _].
Qed.

(** ** Row by row: the forward fill *)

Lemma ffill_from_lookup {A} (l : option A) (col : list (option A)) (i : nat) :
  (i < length col)%nat ->
  ffill_from l col !! i
  = Some (match last_valid (take (S i) col) with Some v => Some v | None => l end).
Proof.
  revert l i. induction col as [|x col IH]; intros l i Hi; simpl in Hi; [lia|].
  destruct i as [|i].
  - simpl. unfold last_valid. by destruct x.
  - cbn [ffill_from lookup list_lookup]. rewrite IH by lia. f_equal.
    unfold last_valid. rewrite firstn_cons.
    destruct x as [a|]; simpl; [|done].
    rewrite last_cons. by destruct (last _).
Qed.

Lemma ffill_lookup {A} (col : list (option A)) (i : nat) :
  (i < length col)%nat -> ffill col !! i = Some (last_valid (take (S i) col)).
Proof.
  intros Hi. unfold ffill. rewrite ffill_from_lookup by done.
  by destruct (last_valid _).
Qed.

Lemma ffill_from_fmap {A B} (g : A -> B) (l : option A) (col : list (option A)) :
  ffill_from (g <$> l) ((fun x : option A => g <$> x) <$> col)
  = (fun x : option A => g <$> x) <$> ffill_from l col.
Proof.
  revert l. induction col as [|x col IH]; intros l; [done|].
  cbn [ffill_from fmap list_fmap]. destruct x as [a|]; simpl; f_equal.
  - apply (IH (Some a)).
  - apply IH.
Qed.

Lemma ffill_fmap {A B} (g : A -> B) (col : list (option A)) :
  ffill ((fun x : option A => g <$> x) <$> col)
  = (fun x : option A => g <$> x) <$> ffill col.
Proof. apply (ffill_from_fmap g None). Qed.

Lemma ffill_from_idemp {A} (l : option A) (col : list (option A)) :
  ffill_from l (ffill_from l col) = ffill_from l col.
Proof.
  revert l. induction col as [|x col IH]; intros l; [done|].
  cbn [ffill_from]. destruct x as [a|]; [by rewrite IH|].
  destruct l as [b|]; by rewrite IH.
Qed.

Lemma filled_Address (rd : list (Route.t num)) :
  Route.Address <$> filled rd
  = (fun a : option (list N) => before_comma <$> a) <$> ffill (Route.Address <$> rd).
Proof.
  unfold filled. rewrite address_processing_Address.
  change (fun r : Route.t num => before_comma <$> Route.Address r)
    with ((fun a : option (list N) => before_comma <$> a) ∘ @Route.Address num).
  rewrite list_fmap_compose, ffill_cols_Address, ffill_fmap.
  unfold ffill. by rewrite ffill_from_idemp.
Qed.

Lemma filled_column {B} (get : Route.t num -> B) (rd : list (Route.t num)) :
  (forall v r, get (Route.set_Route v r) = get r) ->
  (forall v r, get (Route.set_Driver v r) = get r) ->
  (forall v r, get (Route.set_Stop v r) = get r) ->
  (forall v r, get (Route.set_Address v r) = get r) ->
  (forall v r, get (Route.set_Shipping_name v r) = get r) ->
  get <$> filled rd = get <$> rd.
Proof.
  intros H1 H2 H3 H4 H5. unfold filled. rewrite address_processing_other by done.
  unfold ffill_cols. assign_column.
Qed.

Lemma length_filled (rd : list (Route.t num)) : length (filled rd) = length rd.
Proof. unfold filled. by rewrite length_address_processing, length_ffill_cols. Qed.

Lemma column_lookup {R B} (get : R -> B) (df : list R) (col : list B) (i : nat) (r : R) :
  get <$> df = col -> df !! i = Some r -> col !! i = Some (get r).
Proof. intros <- H. by rewrite list_lookup_fmap, H. Qed.

(** X4: row by row, lines 22-27 give each of Route, Driver, Stop and
    Shipping name the last value that stands in the column at or above the
    row (NaN when there is none), and Address the text before the first
    comma of that value: the second fill of line 27 changes nothing.  Items,
    Note, time, dist and Total items are never filled. *)
Theorem filled_row (route_data : list (Route.t num)) (i : nat) (r : Route.t num) :
  route_data !! i = Some r ->
  exists r', filled route_data !! i = Some r' /\
    Route.Route r' = last_valid (Route.Route <$> take (S i) route_data) /\
    Route.Driver r' = last_valid (Route.Driver <$> take (S i) route_data) /\
    Route.Stop r' = last_valid (Route.Stop <$> take (S i) route_data) /\
    Route.Shipping_name r' = last_valid (Route.Shipping_name <$> take (S i) route_data) /\
    Route.Address r'
    = before_comma <$> last_valid (Route.Address <$> take (S i) route_data) /\
    Route.Items r' = Route.Items r /\ Route.Note r' = Route.Note r /\
    Route.time r' = Route.time r /\ Route.dist r' = Route.dist r /\
    Route.Total_items r' = Route.Total_items r.
Proof.
  intros Hr. pose proof (lookup_lt_Some _ _ _ Hr) as Hi.
  destruct (lookup_lt_is_Some_2 (filled route_data) i) as [r' Hr'];
    [by rewrite length_filled|].
  exists r'. split; [done|].
  assert (forall {B} (get : Route.t num -> option B),
            get <$> filled route_data = ffill (get <$> route_data) ->
            get r' = last_valid (get <$> take (S i) route_data)) as Hfill.
  { intros B get Hcol. pose proof (column_lookup get _ _ i r' Hcol Hr') as H.
    rewrite ffill_lookup in H by by rewrite length_fmap.
    rewrite fmap_take. congruence. }
  assert (forall {B} (get : Route.t num -> B),
            get <$> filled route_data = get <$> route_data -> get r' = get r) as Hkeep.
  { intros B get Hcol. pose proof (column_lookup get _ _ i r' Hcol Hr') as H.
    rewrite list_lookup_fmap, Hr in H. simpl in H. congruence. }
  split; [|split; [|split; [|split; [|split]]]].
  - apply Hfill. unfold filled. rewrite address_processing_other by done.
    apply ffill_cols_Route.
  - apply Hfill, filled_Driver.
  - apply Hfill. unfold filled. rewrite address_processing_other by done.
    apply ffill_cols_Stop.
  - apply Hfill. unfold filled. rewrite address_processing_other by done.
    apply ffill_cols_Shipping_name.
  - pose proof (column_lookup Route.Address _ _ i r' (filled_Address route_data) Hr')
      as H.
    rewrite list_lookup_fmap, ffill_lookup in H by by rewrite length_fmap.
    rewrite fmap_take. simpl in H. congruence.
  - repeat split; apply Hkeep; by apply filled_column.
Qed.

(** ** Blank cells after the fill *)

Lemma ffill_from_values {A} (v : A) (col : list (option A)) :
  Forall (fun x => exists w, x = Some w /\ (w = v \/ Some w ∈ col))
         (ffill_from (Some v) col).
Proof. params.
  revert v. induction col as [|x col IH]; intros v; [constructor|].
  cbn [ffill_from]. destruct x as [w|].
  - constructor; [exists w; split; [done|right; left]|].
    eapply Forall_impl; [apply IH|]. intros y (u & Hy & Hu). exists u. split; [done|].
    right. destruct Hu as [->|Hu]; [left | by right].
  - constructor; [exists v; eauto|].
    eapply Forall_impl; [apply IH|]. intros y (u & Hy & Hu). exists u. split; [done|].
    destruct Hu as [->|Hu]; [by left | right; by right].
Qed.

(** After [ffill], a column whose first cell is no NaN holds values of the
    column only. *)
Lemma ffill_first_values {A} (v : A) (col : list (option A)) :
  Forall (fun x => exists w, x = Some w /\ Some w ∈ Some v :: col) (ffill (Some v :: col)).
Proof. params.
  unfold ffill. cbn [ffill_from].
  constructor; [exists v; split; [done|left]|].
  eapply Forall_impl; [apply ffill_from_values|].
  intros y (u & Hy & Hu). exists u. split; [done|].
  destruct Hu as [->|Hu]; [left | by right].
Qed.

(** The NaN at the top of a column stay. *)
Lemma ffill_leading_None {A} (k : nat) (col : list (option A)) :
  Forall (fun x => x = None) (take k col) -> take k (ffill col) = take k col.
Proof. params.
  unfold ffill. revert k. induction col as [|x col IH]; intros k H; [by destruct k|].
  destruct k as [|k]; [done|].
  rewrite firstn_cons in H. apply Forall_cons in H as [-> H].
  cbn [ffill_from]. rewrite !firstn_cons. by rewrite IH.
Qed.

Lemma before_comma_nil (a : list N) :
  before_comma a = [] <-> a = [] \/ comma_first a.
Proof. params.
  unfold before_comma, comma_first. destruct a as [|c a]; [naive_solver|].
  cbn [take_while head]. destruct (c =? 44)%N eqn:E; simpl.
  - apply N.eqb_eq in E as ->. naive_solver.
  - apply N.eqb_neq in E. split; [done|]. intros [?|[= ?]]; done.
Qed.

Lemma filled_first_values {B} (get : Route.t num -> option B) (r0 : Route.t num)
    (rest : list (Route.t num)) (v : B) :
  get <$> filled (r0 :: rest) = ffill (get <$> r0 :: rest) ->
  get r0 = Some v ->
  Forall (fun r => exists w, get r = Some w /\ Some w ∈ get <$> r0 :: rest)
         (filled (r0 :: rest)).
Proof.
  intros Hcol Hv. apply (Forall_column get (fun x => exists w, x = Some w /\ _)).
  rewrite Hcol, fmap_cons, Hv. apply ffill_first_values.
Qed.

Lemma filled_leading_None {B} (get : Route.t num -> option B) (input : list (Route.t num))
    (k : nat) :
  get <$> filled input = ffill (get <$> input) ->
  Forall (fun r => get r = None) (take k input) ->
  Forall (fun r => get r = None) (take k (filled input)).
Proof.
  intros Hcol Hnone. apply (Forall_column get (fun x => x = None)).
  rewrite fmap_take, Hcol, ffill_leading_None; rewrite <- fmap_take; by rewrite Forall_fmap.
Qed.

(** C5 (amended): the state of Route, Driver, Stop, Address and Shipping
    name after lines 22-27, when the first row of the column is not blank.
    Blank is a NaN or the empty text; no cell of the file is the empty
    text.  No row is blank in Route, Driver, Stop and Shipping name.  In
    Address no row is a NaN, and none is blank when no address of the file
    begins with a comma; the address of a row is the empty text exactly
    where the address it is cut from begins with a comma.  In a column
    whose first rows are NaN, the same rows are NaN after the fill, also
    in a table that is not empty. *)
Theorem forward_fill_no_blank (r0 : Route.t num) (rest : list (Route.t num)) :
  let input := r0 :: rest in
  let df := filled input in
  ((~ blank (Route.Route r0) -> Forall (fun r => Route.Route r <> Some []) input ->
    Forall (fun r => ~ blank (Route.Route r)) df) /\
   (~ blank (Route.Driver r0) -> Forall (fun r => Route.Driver r <> Some []) input ->
    Forall (fun r => ~ blank (Route.Driver r)) df) /\
   (is_Some (Route.Stop r0) -> Forall (fun r => is_Some (Route.Stop r)) df) /\
   (~ blank (Route.Shipping_name r0) ->
    Forall (fun r => Route.Shipping_name r <> Some []) input ->
    Forall (fun r => ~ blank (Route.Shipping_name r)) df)) /\
  ((is_Some (Route.Address r0) ->
    Forall (fun r => exists a, Some a ∈ Route.Address <$> input /\
                               Route.Address r = Some (before_comma a) /\
                               (blank (Route.Address r) <-> a = [] \/ comma_first a)) df) /\
   (~ blank (Route.Address r0) ->
    Forall (fun r => forall a, Route.Address r = Some a -> a <> [] /\ ~ comma_first a) input ->
    Forall (fun r => ~ blank (Route.Address r)) df)) /\
  (forall k,
     (Forall (fun r => Route.Route r = None) (take k input) ->
      Forall (fun r => Route.Route r = None) (take k df)) /\
     (Forall (fun r => Route.Driver r = None) (take k input) ->
      Forall (fun r => Route.Driver r = None) (take k df)) /\
     (Forall (fun r => Route.Stop r = None) (take k input) ->
      Forall (fun r => Route.Stop r = None) (take k df)) /\
     (Forall (fun r => Route.Address r = None) (take k input) ->
      Forall (fun r => Route.Address r = None) (take k df)) /\
     (Forall (fun r => Route.Shipping_name r = None) (take k input) ->
      Forall (fun r => Route.Shipping_name r = None) (take k df))).
Proof.
  intros input df.
  assert (Route.Route <$> df = ffill (Route.Route <$> input)) as HRoute.
  { unfold df, filled. rewrite address_processing_other by done. apply ffill_cols_Route. }
  pose proof (filled_Driver input) as HDriver. fold df in HDriver.
  assert (Route.Stop <$> df = ffill (Route.Stop <$> input)) as HStop.
  { unfold df, filled. rewrite address_processing_other by done. apply ffill_cols_Stop. }
  assert (Route.Shipping_name <$> df = ffill (Route.Shipping_name <$> input)) as HName.
  { unfold df, filled. rewrite address_processing_other by done.
    apply ffill_cols_Shipping_name. }
  pose proof (filled_Address input) as HAddress. fold df in HAddress.
  assert (forall get : Route.t num -> option (list N),
            get <$> df = ffill (get <$> input) ->
            ~ blank (get r0) -> Forall (fun r => get r <> Some []) input ->
            Forall (fun r => ~ blank (get r)) df) as Htext.
  { intros get Hcol Hfirst Hinput.
    destruct (get r0) as [v|] eqn:Hv; [|destruct Hfirst; by left].
    eapply Forall_impl; [exact (filled_first_values get r0 rest v Hcol Hv)|].
    intros r (w & Hw & Hin) [Hb|Hb]; [congruence|].
    rewrite Hw in Hb. injection Hb as ->.
    apply list_elem_of_fmap in Hin as (r' & Hr' & Hin).
    eapply Forall_forall in Hinput; [|exact Hin]. by destruct Hinput. }
  assert (is_Some (Route.Address r0) ->
          Forall (fun r => exists a, Some a ∈ Route.Address <$> input /\
                                     Route.Address r = Some (before_comma a) /\
                                     (blank (Route.Address r) <-> a = [] \/ comma_first a))
                 df) as Hcut.
  { intros [v Hv].
    apply (Forall_column Route.Address
             (fun x => exists a, Some a ∈ Route.Address <$> input /\
                                 x = Some (before_comma a) /\
                                 (blank x <-> a = [] \/ comma_first a))).
    rewrite HAddress, Forall_fmap. unfold input. rewrite fmap_cons, Hv.
    eapply Forall_impl; [apply ffill_first_values|].
    intros x (a & -> & Hin). exists a.
    split; [exact Hin|]. split; [reflexivity|].
    rewrite <- before_comma_nil. unfold blank. simpl.
    split; [intros [H|H]; [discriminate | by injection H] | intros ->; by right]. }
  split; [|split].
  - split; [by apply Htext|]. split; [by apply Htext|]. split; [|by apply Htext].
    intros [v Hv].
    eapply Forall_impl; [exact (filled_first_values Route.Stop r0 rest v HStop Hv)|].
    intros r (w & Hw & _). eauto.
  - split; [exact Hcut|].
    intros Hfirst Hinput.
    destruct (Route.Address r0) as [v|] eqn:Hv; [|destruct Hfirst; by left].
    eapply Forall_impl; [apply Hcut; eauto|].
    intros r (a & Hin & _ & Hblank) Hb. apply Hblank in Hb.
    apply list_elem_of_fmap in Hin as (r' & Hr' & Hin).
    eapply Forall_forall in Hinput; [|exact Hin].
    destruct (Hinput a) as [Hne Hcomma]; [done|]. by destruct Hb.
  - intros k.
    split; [by apply filled_leading_None|]. split; [by apply filled_leading_None|].
    split; [by apply filled_leading_None|]. split; [|by apply filled_leading_None].
    intros Hnone. apply (Forall_column Route.Address (fun x => x = None)).
    rewrite fmap_take, HAddress, <- fmap_take, Forall_fmap.
    assert (take k (ffill (Route.Address <$> input)) = take k (Route.Address <$> input)) as ->.
    { apply ffill_leading_None. rewrite <- fmap_take. by rewrite Forall_fmap. }
    rewrite <- fmap_take, Forall_fmap.
    eapply Forall_impl; [exact Hnone|]. intros r Hr. simpl. by rewrite Hr.
Qed.

(** ** What the product list does to the route table *)

Lemma final_rows_replicate (df_plist : list Plist.t) (r : Route.t num) :
  final_rows df_plist r
  = replicate (Nat.max 1 (length (matches Plist.Lineitem_name
                                    (lineitem_name (Route.Items r)) df_plist)))
              (route_row r).
Proof.
  unfold final_rows.
  set (x := Item.mk r (lineitem_name (Route.Items r)) (item_count (Route.Items r))).
  change (fun m : Item.t num * option Plist.t => final_cols (add_Count m))
    with ((fun y : Item.t num => final_cols (add_Count (y, None)))
            ∘ (@fst (Item.t num) (option Plist.t))).
  rewrite list_fmap_compose, merge_row_fst, fmap_replicate. done.
Qed.

(** X5: the product list reaches the table [process_data] returns only
    through the number of its rows: the table is the filled route table,
    each row once when its item name is the title of no tagged product, and
    once per tagged product with that title otherwise; no column of the
    product list is in it. *)
Theorem catalog_only_repeats_rows (route_data : list (Route.t num))
    (products_data : list Product.t) :
  (process_data route_data products_data).1
  = filled route_data ≫= fun r =>
      replicate (Nat.max 1 (length (matches Plist.Lineitem_name
                                      (lineitem_name (Route.Items r))
                                      (prepare_plist products_data))))
                (route_row r).
Proof.
  rewrite process_data_rows. cbn [fst].
  induction (filled route_data) as [|r df IH]; [done|].
  by rewrite !bind_cons, IH, final_rows_replicate.
Qed.

(** ** The digits of an item count *)

(** X6: an Item Count that is no NaN is a run of one to three decimal
    digits, and [astype(int)] makes of it an integer from 0 to 999: the
    count is read from the first three characters of Items only. *)
Theorem item_count_three_digits (route_data : list (Route.t num))
    (products_data : list Product.t) (f : Final.t num) (ds : list N) :
  f ∈ (process_data route_data products_data).1 ->
  Final.Item_Count f = Some ds ->
  (1 <= length ds <= 3)%nat /\
  Forall (fun c => is_digit c = true) ds /\
  exists z, astype_int (Some ds) = Ok z /\ 0 <= z <= 999.
Proof. params.
  intros (r & _ & Hf)%elem_of_process_data Hds.
  pose proof (final_rows_columns (prepare_plist products_data) r) as Hcols.
  eapply Forall_forall in Hcols as (_ & Hc & _); [|exact Hf].
  rewrite Hc in Hds. clear Hc Hf f.
  destruct (astype_int_item_count (Route.Items r)) as [z Hz]; [by rewrite Hds|].
  pose proof (item_count_bound _ _ Hz) as Hbound. rewrite Hds in Hz.
  destruct (Route.Items r) as [s|]; [|done].
  change (item_count (Some s)) with (search_digits (take 3 s)) in Hds.
  pose proof (search_digits_length _ _ Hds) as Hlen. rewrite length_take in Hlen.
  apply search_digits_digits in Hds as [Hne Hdigits].
  split; [|split; [done|by exists z]].
  destruct ds as [|c ds]; [done|]. rewrite length_cons in *. lia.
Qed.

(** ** When the reports are not made *)

Lemma traverse_Raise_inv {A B} (f : A -> result B) (l : list A) (e : exn) :
  traverse f l = Raise e -> exists x, x ∈ l /\ f x = Raise e.
Proof.
  induction l as [|a l IH]; simpl; [done|].
  destruct (f a) as [y|e'] eqn:Ea; simpl.
  - destruct (traverse f l) as [ys|e'] eqn:El; simpl; [done|].
    intros [= ->]. destruct IH as (x & Hx & Hfx); [done|].
    exists x. split; [by right|done].
  - intros [= ->]. exists a. split; [left|done].
Qed.

Lemma write_sheets_Raise (columns : list (list N)) (wb : list worksheet)
    (groups : list (list N * list (list xval))) (e : exn) :
  write_sheets columns wb groups = Raise e -> e = WorksheetNameError.
Proof.
  revert wb. induction groups as [|[d final] groups IH]; intros wb; simpl; [done|].
  destruct (sheetname_ok (title <$> wb) d); [apply IH | by intros [= <-]].
Qed.

Lemma create_routing_file_Raise (route_df : list (Final.t num)) (e : exn) :
  create_routing_file route_df = Raise e ->
  e = WorksheetNameError /\
  ~ names_accepted [] (group_keys str_compare (omap Final.Driver route_df)).
Proof.
  intros He. split.
  - unfold create_routing_file in He.
    destruct (write_sheets _ _ _) as [out|e'] eqn:E; simpl in He; [done|].
    injection He as <-. by apply write_sheets_Raise in E.
  - intros Hacc.
    pose proof (proj2 (create_routing_file_Ok route_df _) (conj Hacc eq_refl)) as H.
    congruence.
Qed.

Lemma create_packing_file_Raise (packing : list Packing.t) (e : exn) :
  create_packing_file packing = Raise e ->
  e = WorksheetNameError /\
  ~ names_accepted []
      (group_keys str_compare (omap (fun p => Some (Packing.Driver p)) packing)).
Proof.
  intros He. split.
  - unfold create_packing_file in He.
    destruct (write_sheets _ _ _) as [out|e'] eqn:E; simpl in He; [done|].
    injection He as <-. by apply write_sheets_Raise in E.
  - intros Hacc.
    pose proof (proj2 (create_packing_file_Ok packing _) (conj Hacc eq_refl)) as H.
    congruence.
Qed.

(** The counts convert exactly when no Items cell of the file lacks a digit
    in its first three characters. *)
Lemma packing_df_Raise (route_file : list (Route.t num)) (products_file : list Product.t)
    (e : exn) :
  packing_df (process_data route_file products_file).1
             (process_data route_file products_file).2 = Raise e ->
  e = ValueError /\ exists r, r ∈ route_file /\ item_count (Route.Items r) = None.
Proof.
  unfold packing_df, count_column.
  destruct (traverse _ _) as [counts|e'] eqn:E; simpl; [done|].
  intros [= ->]. apply traverse_Raise_inv in E as (f & Hf & Hraise).
  split; [by apply astype_int_Raise in Hraise|].
  apply elem_of_process_data in Hf as (r & Hr & Hf).
  pose proof (final_rows_columns (prepare_plist products_file) r) as Hcols.
  eapply Forall_forall in Hcols as (_ & Hc & _); [|exact Hf].
  rewrite Hc in Hraise.
  destruct (proj2 (filled_Items_elem route_file (Route.Items r))) as (r0 & Hr0 & Hitems);
    [by exists r|].
  exists r0. split; [done|]. rewrite Hitems.
  destruct (item_count (Route.Items r)) as [ds|] eqn:Hds; [|done].
  destruct (astype_int_item_count (Route.Items r)) as [z Hz]; [by rewrite Hds|].
  rewrite Hds in Hz. congruence.
Qed.

Lemma packing_df_Ok_items (route_file : list (Route.t num))
    (products_file : list Product.t) (rows : list Packing.t) :
  packing_df (process_data route_file products_file).1
             (process_data route_file products_file).2 = Ok rows ->
  Forall (fun r => is_Some (item_count (Route.Items r))) route_file.
Proof.
  intros (counted & Hcount & _)%packing_df_Ok.
  apply count_column_Ok in Hcount as [Hfst Hint].
  apply Forall_forall. intros r0 Hr0.
  destruct (proj1 (filled_Items_elem route_file (Route.Items r0))) as (r & Hr & Hitems);
    [by exists r0|].
  rewrite <- Hitems.
  pose proof (final_rows_columns (prepare_plist products_file) r) as Hcols.
  pose proof (final_rows_not_nil (prepare_plist products_file) r) as Hne.
  destruct (final_rows (prepare_plist products_file) r) as [|f fs] eqn:E; [done|].
  apply Forall_cons in Hcols as [(_ & Hc & _) _].
  assert (f ∈ (process_data route_file products_file).1) as Hf.
  { apply elem_of_process_data. exists r. split; [done|]. rewrite E. left. }
  rewrite <- Hfst in Hf. apply list_elem_of_fmap in Hf as ([f' c] & -> & Hfc).
  eapply Forall_forall in Hint; [|exact Hfc]. simpl in Hint, Hc.
  apply astype_int_Ok in Hint as (s & Hs & _). rewrite <- Hc, Hs. eauto.
Qed.


(** ** A file without any driver *)

Lemma ffill_from_None {A} (col : list (option A)) :
  Forall (fun x => x = None) col -> ffill_from None col = col.
Proof. induction 1 as [|x col -> _ IH]; simpl; [done|]. by rewrite IH. Qed.

Lemma process_data_no_driver (route_file : list (Route.t num))
    (products_file : list Product.t) :
  Forall (fun r => Route.Driver r = None) route_file ->
  omap Final.Driver (process_data route_file products_file).1 = [].
Proof.
  intros Hnone.
  assert (Forall (fun r => Route.Driver r = None) (filled route_file)) as Hfilled.
  { apply (Forall_column Route.Driver (fun d => d = None)).
    rewrite filled_Driver. unfold ffill.
    rewrite ffill_from_None; by rewrite Forall_fmap. }
  destruct (omap Final.Driver (process_data route_file products_file).1) as [|d ds] eqn:E;
    [done|].
  assert (d ∈ omap Final.Driver (process_data route_file products_file).1) as Hd
    by (rewrite E; left).
  apply list_elem_of_omap in Hd as (f & Hf & Hfd).
  apply elem_of_process_data in Hf as (r & Hr & Hf).
  pose proof (final_rows_columns (prepare_plist products_file) r) as Hcols.
  eapply Forall_forall in Hcols as (Hdr & _); [|exact Hf].
  eapply Forall_forall in Hfilled; [|exact Hr]. congruence.
Qed.


(** ** The rows of the sheets *)

Lemma filter_disjoint_perm {A} (P Q R : A -> Prop) `{!forall x, Decision (P x)}
    `{!forall x, Decision (Q x)} `{!forall x, Decision (R x)} (l : list A) :
  (forall x, x ∈ l -> R x <-> P x \/ Q x) ->
  (forall x, x ∈ l -> P x -> Q x -> False) ->
  filter R l ≡ₚ filter P l ++ filter Q l.
Proof. params.
  induction l as [|x l IH]; intros HR Hdis; [done|].
  rewrite !filter_cons.
  assert (filter R l ≡ₚ filter P l ++ filter Q l) as IH'.
  { apply IH; intros y Hy; [apply HR | apply Hdis]; by right. }
  pose proof (HR x ltac:(left)) as HRx. pose proof (Hdis x ltac:(left)) as Hdx.
  destruct (decide (P x)), (decide (Q x)), (decide (R x)); try tauto.
  - simpl. by rewrite IH'.
  - rewrite IH'. apply Permutation_middle.
Qed.

(** The groups of a [groupby] hold every row that has a key, each once. *)
Lemma groups_partition {A K} `{EqDecision K} (key : A -> option K) (ks : list K)
    (l : list A) :
  NoDup ks ->
  concat ((fun k => group_rows key k l) <$> ks) ≡ₚ filter (on_key key (fun k => k ∈ ks)) l.
Proof. params.
  induction 1 as [|k ks Hk Hnd IH]; simpl.
  - induction l as [|a l IHl]; [done|].
    rewrite filter_cons, decide_False; [done|].
    unfold on_key. destruct (key a); [by intros ?%elem_of_nil | tauto].
  - rewrite IH. symmetry. unfold group_rows.
    apply filter_disjoint_perm; unfold on_key.
    + intros a _. destruct (key a) as [k'|]; [|naive_solver].
      rewrite elem_of_cons. naive_solver.
    + intros a _ Ha. rewrite Ha. done.
Qed.

Lemma groupby_partition {A K} `{EqDecision K} (cmp : K -> K -> comparison)
    `{!CmpOrder cmp} (key : A -> option K) (df : list A) :
  concat ((groupby cmp key df).*2) ≡ₚ filter (fun a => is_Some (key a)) df.
Proof.
  unfold groupby. rewrite <- list_fmap_compose.
  change (snd ∘ _) with (fun k => group_rows key k df).
  rewrite groups_partition by apply group_keys_NoDup, _.
  erewrite filter_ext_in; [done|].
  intros a Ha. unfold on_key. destruct (key a) as [k|] eqn:Ek.
  - split; [eauto|]. intros _. apply elem_of_group_keys; [apply _|].
    apply list_elem_of_omap. by exists a.
  - split; [done | by intros [? ?]].
Qed.

Lemma filter_all {A} (P : A -> Prop) `{!forall x, Decision (P x)} (l : list A) :
  (forall x, P x) -> filter P l = l.
Proof. params.
  intros HP. induction l as [|x l IH]; [done|].
  by rewrite filter_cons, decide_True, IH.
Qed.

Lemma data_rows_report (columns : list (list N)) (rows : list (list xval))
    (total : list xval) (d : list N) :
  data_rows (format_sheet (to_excel columns (rows ++ [total]) d)) = rows.
Proof.
  unfold data_rows. rewrite to_excel_values. cbn [drop length].
  rewrite length_app. cbn [length].
  replace (S (length rows + 1) - 2)%nat with (length rows) by lia.
  rewrite drop_0. by rewrite take_app_length.
Qed.

Lemma report_data_rows {A} (columns : list (list N)) (row : A -> list xval)
    (total : list A -> list xval) (key : A -> option (list N)) (df : list A) :
  concat (data_rows <$> format_excel_file
            (close_writer (report_sheets columns (fun g => (row <$> g) ++ [total g]) key df)))
  ≡ₚ row <$> filter (fun a => is_Some (key a)) df.
Proof.
  rewrite <- (groupby_partition str_compare key df).
  unfold report_sheets. destruct (groupby str_compare key df) as [|g gs] eqn:E; [done|].
  rewrite close_writer_id by done. rewrite <- E. clear E g gs.
  unfold format_excel_file. rewrite <- !list_fmap_compose.
  induction (groupby str_compare key df) as [|g gs IH]; [done|].
  cbn [fmap list_fmap concat compose]. cbn [fmap list_fmap concat compose] in IH.
  rewrite data_rows_report, fmap_app. by f_equiv.
Qed.

(** X9: the reports neither lose nor invent a row of a driver.  Taken
    together, the rows that the sheets of the routing workbook hold between
    header and total are the rows of the route table that have a driver,
    each once; the rows without driver (those above the first driver of the
    file) are in no sheet.  The sheets of the packing workbook hold every
    row of the packing table once. *)
Theorem report_rows_conserved (route_file : list (Route.t num))
    (products_file : list Product.t) (routing packing : list worksheet) :
  generate route_file products_file = Ok (routing, packing) ->
  let out := process_data route_file products_file in
  concat (data_rows <$> routing)
  ≡ₚ routing_row <$> filter (fun f => is_Some (Final.Driver f)) out.1 /\
  exists packing_rows,
    packing_df out.1 out.2 = Ok packing_rows /\
    concat (data_rows <$> packing) ≡ₚ packing_row <$> packing_rows.
Proof.
  intros (rows & Hpack & Hrouting & Hpacking)%generate_Ok out.
  fold out in Hpack, Hrouting.
  apply create_routing_file_Ok in Hrouting as [_ ->].
  apply create_packing_file_Ok in Hpacking as [_ ->].
  split.
  - apply (report_data_rows routing_columns routing_row routing_total).
  - exists rows. split; [done|].
    pose proof (report_data_rows packing_columns packing_row packing_total
                  (fun p => Some (Packing.Driver p)) rows) as H.
    rewrite filter_all in H by eauto. exact H.
Qed.

(** ** The rows of the packing table *)

Lemma packing_df_rows (route_df : list (Final.t num)) (df_plist : list Plist.t)
    (packing : list Packing.t) :
  packing_df route_df df_plist = Ok packing ->
  exists counted,
    counted.*1 = route_df /\
    Forall (fun rc => astype_int (Final.Item_Count rc.1) = Ok rc.2) counted /\
    packing ≡ₚ merge_packing (sum_counts counted) df_plist /\
    StronglySorted (key_le packing_compare packing_sort_key) packing.
Proof.
  intros (counted & Hcount & ->)%packing_df_Ok.
  apply count_column_Ok in Hcount as [Hfst Hint].
  exists counted. repeat split; [done|done| |].
  - apply (sort_values_perm packing_compare).
  - apply sort_values_sorted, _.
Qed.

(** The counts of the rows of a table that satisfy a condition on the
    row. *)
Lemma counted_filter (counted : list (Final.t num * Z)) (P : Final.t num -> Prop)
    `{!forall f, Decision (P f)} :
  Forall (fun rc => astype_int (Final.Item_Count rc.1) = Ok rc.2) counted ->
  snd <$> filter (fun rc => P rc.1) counted = count_of <$> filter P counted.*1.
Proof. params.
  intros Hint. rewrite filter_fmap, <- list_fmap_compose.
  apply Forall_fmap_ext_1, Forall_forall.
  intros [f c] [_ Hfc]%list_elem_of_filter.
  eapply Forall_forall in Hint; [|exact Hfc]. simpl in *.
  unfold count_of. by rewrite Hint.
Qed.

(** X10: the packing table has a row for a driver and an item name
    exactly when a row of the route table has both, and the Count of the
    row is the sum of the item counts of the rows of the route table with
    this driver and this item name.  (The table has fewer than 2^53 rows, so
    that no int64 sum wraps.) *)
Theorem packing_row_counts (route_file : list (Route.t num))
    (products_file : list Product.t) (packing : list Packing.t) :
  let out := process_data route_file products_file in
  packing_df out.1 out.2 = Ok packing ->
  Z.of_nat (length out.1) < 2 ^ 53 ->
  (forall p, p ∈ packing ->
     Packing.Count p
     = sumZ (count_of <$> filter (fun f => Final.Driver f = Some (Packing.Driver p) /\
                                   Final.Lineitem_name f = Some (Packing.Lineitem_name p))
                           out.1)) /\
  (forall d n,
     (exists p, p ∈ packing /\ Packing.Driver p = d /\ Packing.Lineitem_name p = n) <->
     (exists f, f ∈ out.1 /\ Final.Driver f = Some d /\ Final.Lineitem_name f = Some n)).
Proof.
  intros out (counted & Hfst & Hint & Hperm & _)%packing_df_rows Hlen.
  assert (forall f, f ∈ out.1 <-> exists c, (f, c) ∈ counted) as Hin.
  { intros f. rewrite <- Hfst, list_elem_of_fmap. split.
    - intros ([f' c] & -> & H). by exists c.
    - intros [c H]. by exists (f, c). }
  assert (Forall (fun rc : Final.t num * Z => 0 <= rc.2 <= 999) counted) as Hval.
  { apply Forall_forall. intros [f c] Hfc. simpl.
    eapply Forall_forall in Hint; [|exact Hfc].
    eapply process_data_count_bound; [apply Hin; by exists c | exact Hint]. }
  assert (length counted = length out.1) as Hlen' by by rewrite <- Hfst, length_fmap.
  assert (forall p, p ∈ packing <->
            exists k, k ∈ group_keys (pair_compare str_compare str_compare)
                            (omap (fun rc => packing_key rc.1) counted) /\
                      Packing.summed p
                      = summed_row k (snd <$> group_rows (fun rc => packing_key rc.1) k counted) /\
                      p ∈ merge_packing (sum_counts counted) out.2) as Hrow.
  { intros p. rewrite Hperm. split.
    - intros Hp.
      assert (Packing.summed p ∈ sum_counts counted) as Hs.
      { apply (elem_of_merge_packing _ out.2). by exists p. }
      apply elem_of_sum_counts in Hs as (k & Hk & Hs). by exists k.
    - by intros (k & _ & _ & Hp). }
  split.
  - intros p (k & Hk & Hs & _)%Hrow. destruct k as [d n].
    unfold Packing.Count, Packing.Driver, Packing.Lineitem_name. rewrite Hs.
    cbn [summed_row Summed.Count Summed.Driver Summed.Lineitem_name fst snd].
    unfold group_rows.
    rewrite (sum_int64_exact snd) by (done || lia).
    rewrite (filter_ext_in _ (fun rc => Final.Driver rc.1 = Some d /\
                                        Final.Lineitem_name rc.1 = Some n)).
    + rewrite <- Hfst. f_equal.
      exact (counted_filter counted
               (fun f => Final.Driver f = Some d /\ Final.Lineitem_name f = Some n) Hint).
    + intros [f c] _. simpl. apply packing_key_Some.
  - intros d n. split.
    + intros (p & (k & Hk & Hs & _)%Hrow & <- & <-).
      apply elem_of_group_keys in Hk; try apply _.
      apply list_elem_of_omap in Hk as ([f c] & Hfc & Hkey). simpl in Hkey.
      destruct k as [d n]. apply packing_key_Some in Hkey as [Hd Hn].
      exists f. unfold Packing.Driver, Packing.Lineitem_name. rewrite Hs.
      split; [apply Hin; by exists c | done].
    + intros (f & [c Hfc]%Hin & Hd & Hn).
      pose (k := (d, n)).
      assert (k ∈ group_keys (pair_compare str_compare str_compare)
                    (omap (fun rc => packing_key rc.1) counted)) as Hk.
      { apply elem_of_group_keys; try apply _. apply list_elem_of_omap.
        exists (f, c). split; [done|]. by apply packing_key_Some. }
      destruct (proj2 (elem_of_merge_packing (sum_counts counted) out.2
                  (summed_row k (snd <$> group_rows (fun rc => packing_key rc.1) k counted))))
        as (p & Hp & Hsum).
      { apply elem_of_sum_counts. by exists k. }
      exists p. split; [by rewrite Hperm|].
      unfold Packing.Driver, Packing.Lineitem_name. by rewrite Hsum.
Qed.

Lemma matches_NoDup {R} (rkey : R -> option (list N)) (k : option (list N))
    (right : list R) :
  NoDup (rkey <$> right) -> (length (matches rkey k right) <= 1)%nat.
Proof. params.
  unfold matches. induction right as [|y right IH]; [simpl; lia|].
  rewrite fmap_cons, NoDup_cons, filter_cons. intros [Hy Hnd].
  destruct (decide (rkey y = k)) as [Hk|Hk]; [|by apply IH].
  assert (filter (fun y' => rkey y' = k) right = []) as ->; [|simpl; lia].
  destruct (filter (fun y' => rkey y' = k) right) as [|z zs] eqn:E; [done|].
  assert (z ∈ filter (fun y' => rkey y' = k) right) as Hz by (rewrite E; left).
  apply list_elem_of_filter in Hz as [Hzk Hz]. destruct Hy.
  apply list_elem_of_fmap. exists z. split; [congruence|done].
Qed.

Lemma sum_counts_keys (counted : list (Final.t num * Z)) :
  (fun s => (Summed.Driver s, Summed.Lineitem_name s)) <$> sum_counts counted
  = group_keys (pair_compare str_compare str_compare)
               (omap (fun rc => packing_key rc.1) counted).
Proof.
  unfold sum_counts. rewrite <- list_fmap_compose, <- groupby_keys.
  apply list_fmap_ext. by intros _ [[d n] g] _.
Qed.

(** X11: when no two tagged products have the same title, the packing
    table lists every item of a driver once: no two of its rows have the
    same driver and item name, and it has as many rows as the route table
    has pairs of driver and item name. *)
Theorem packing_rows_unique (route_file : list (Route.t num))
    (products_file : list Product.t) (packing : list Packing.t) :
  let out := process_data route_file products_file in
  packing_df out.1 out.2 = Ok packing ->
  NoDup (Plist.Lineitem_name <$> out.2) ->
  NoDup ((fun p => (Packing.Driver p, Packing.Lineitem_name p)) <$> packing) /\
  (fun p => (Packing.Driver p, Packing.Lineitem_name p)) <$> packing
  ≡ₚ group_keys (pair_compare str_compare str_compare) (omap packing_key out.1).
Proof.
  intros out (counted & Hfst & _ & Hperm & _)%packing_df_rows Htitles.
  assert ((fun p => (Packing.Driver p, Packing.Lineitem_name p))
            <$> merge_packing (sum_counts counted) out.2
          = group_keys (pair_compare str_compare str_compare) (omap packing_key out.1))
    as Hkeys.
  { unfold merge_packing. rewrite <- list_fmap_compose.
    change ((fun p => (Packing.Driver p, Packing.Lineitem_name p)) ∘ _)
      with ((fun s => (Summed.Driver s, Summed.Lineitem_name s))
              ∘ (@fst Summed.t (option Plist.t))).
    rewrite list_fmap_compose, merge_left_fst_id.
    - rewrite sum_counts_keys, <- Hfst. f_equal.
      clear. induction counted as [|[f c] counted IH]; [done|].
      cbn [fmap list_fmap omap list_omap fst]. by rewrite IH.
    - apply Forall_forall. intros s _. by apply matches_NoDup. }
  rewrite Hperm, Hkeys. split; [|done].
  apply group_keys_NoDup, _.
Qed.

Lemma StronglySorted_lookup {A} (R : A -> A -> Prop) (l : list A) (i j : nat) (x y : A) :
  StronglySorted R l -> l !! i = Some x -> l !! j = Some y -> (i < j)%nat -> R x y.
Proof. params.
  intros Hsorted. revert i j. induction Hsorted as [|a l _ IH Hall]; intros i j Hi Hj Hlt.
  - by rewrite lookup_nil in Hi.
  - destruct j as [|j]; [lia|]. destruct i as [|i]; simpl in *.
    + injection Hi as <-. eapply Forall_forall; [exact Hall|].
      by eapply list_elem_of_lookup_2.
    + apply (IH i j); [done|done|lia].
Qed.

(** X12: in the packing table, and so in each packing sheet, the items
    that are the title of no tagged product (their product type, SKU and
    vendor are blank) come after the driver's other items. *)
Theorem unknown_items_last (route_file : list (Route.t num))
    (products_file : list Product.t) (packing : list Packing.t) (i : nat)
    (p : Packing.t) :
  let out := process_data route_file products_file in
  packing_df out.1 out.2 = Ok packing ->
  packing !! i = Some p ->
  (Packing.Product_type p = None <->
   forall y, y ∈ out.2 -> Plist.Lineitem_name y <> Some (Packing.Lineitem_name p)) /\
  (Packing.Product_type p = None ->
   Packing.Variant_SKU p = None /\ Packing.Vendor p = None /\
   forall j q, packing !! j = Some q -> (i < j)%nat ->
               Packing.Driver q = Packing.Driver p -> Packing.Product_type q = None).
Proof.
  intros out (counted & _ & _ & Hperm & Hsorted)%packing_df_rows Hp.
  assert (p ∈ merge_packing (sum_counts counted) out.2) as Hin.
  { rewrite <- Hperm. by eapply list_elem_of_lookup_2. }
  unfold merge_packing in Hin.
  apply list_elem_of_fmap in Hin as ([s o] & -> & Hm).
  apply elem_of_merge_left in Hm as [_ Hm].
  unfold Packing.Product_type, Packing.Variant_SKU, Packing.Vendor, Packing.Lineitem_name.
  cbn [fst snd Packing.product Packing.summed].
  split.
  - destruct o as [y|]; simpl.
    + split; [done|]. intros Hno. apply elem_of_matches in Hm as [Hy Hk].
      by destruct (Hno y Hy).
    + split; [|done]. intros _. by apply matches_nil_iff.
  - intros Ho. destruct o as [y|]; [done|]. simpl. split; [done|split; [done|]].
    intros j q Hq Hij Hd.
    pose proof (StronglySorted_lookup _ _ i j _ _ Hsorted Hp Hq Hij) as Hle.
    unfold key_le, cmp_le, packing_sort_key, packing_compare, pair_compare in Hle.
    cbn [fst snd] in Hle. rewrite Hd, cmp_refl in Hle by apply _.
    unfold Packing.Product_type in Hle |- *.
    destruct (Packing.product q) as [y|]; [|done]. by destruct Hle.
Qed.

(** ** The column names *)

Lemma drop_while_app_all {A} (p : A -> bool) (pre rest : list A) :
  Forall (fun c => p c = true) pre -> drop_while p (pre ++ rest) = drop_while p rest.
Proof. induction 1 as [|c pre Hc _ IH]; [done|]. simpl. by rewrite Hc. Qed.

Lemma drop_while_head {A} (p : A -> bool) (l : list A) :
  (forall c, head l = Some c -> p c = false) -> drop_while p l = l.
Proof. destruct l as [|c l]; [done|]. intros H. simpl. by rewrite (H c). Qed.

Lemma drop_while_all {A} (p : A -> bool) (l : list A) :
  Forall (fun c => p c = true) l -> drop_while p l = [].
Proof. intros H. rewrite <- (app_nil_r l). by rewrite drop_while_app_all. Qed.

(** [strip] takes the white space around a text that neither begins nor
    ends with white space. *)
Lemma strip_surrounded (pre core post : list N) :
  Forall (fun c => is_space c = true) pre ->
  Forall (fun c => is_space c = true) post ->
  (forall c, head core = Some c -> is_space c = false) ->
  (forall c, last core = Some c -> is_space c = false) ->
  strip (pre ++ core ++ post) = core.
Proof. params.
  intros Hpre Hpost Hhead Hlast. unfold strip, lstrip, rstrip.
  rewrite drop_while_app_all by done.
  destruct core as [|c core].
  - rewrite app_nil_l, (drop_while_all _ post) by done. reflexivity.
  - rewrite (drop_while_head _ ((c :: core) ++ post)) by (intros c' [= <-]; by apply Hhead).
    rewrite reverse_app, drop_while_app_all by by apply Forall_reverse.
    rewrite drop_while_head; [apply reverse_involutive|].
    intros c'. rewrite head_reverse. apply Hlast.
Qed.

(** X13: white space around a column name of the route file does not
    matter: a name that is [core] with white space before and after it is
    handled as [core] is, so that Note (Order), Drive time (minutes) and
    Distance (km) are renamed to Note, time and dist also when spaces
    surround them in the file, and every other name is its stripped self. *)
Theorem header_whitespace_ignored (columns : list (list N)) (i : nat)
    (pre core post : list N) :
  columns !! i = Some (pre ++ core ++ post) ->
  Forall (fun c => is_space c = true) pre ->
  Forall (fun c => is_space c = true) post ->
  (forall c, head core = Some c -> is_space c = false) ->
  (forall c, last core = Some c -> is_space c = false) ->
  clean_columns columns !! i
  = Some (if decide (core = py "Note (Order)") then py "Note"
          else if decide (core = py "Drive time (minutes)") then py "time"
          else if decide (core = py "Distance (km)") then py "dist"
          else core).
Proof. params.
  intros Hi Hpre Hpost Hhead Hlast.
  unfold clean_columns, rename_columns, strip_columns.
  rewrite !list_lookup_fmap, Hi. simpl.
  by rewrite strip_surrounded.
Qed.

(** X14: the check of lines 49-52 can only ever miss Total items, Note,
    time or dist.  The table it looks at has the columns Driver, Stop,
    Shipping name and Address, which line 24 has read, and Count, Item Count
    and Lineitem name, which lines 36-43 have made; so the [ValueError] is
    raised exactly when one of the other four is no column, and its list
    names those that are not, in the order of [final_cols]. *)
Theorem missing_cols_of_input (columns : list (list N)) :
  py "Driver" ∈ columns -> py "Stop" ∈ columns -> py "Shipping name" ∈ columns ->
  py "Address" ∈ columns -> py "Count" ∈ columns -> py "Item Count" ∈ columns ->
  py "Lineitem name" ∈ columns ->
  missing_cols columns
  = filter (fun col => col ∉ columns) [py "Total items"; py "Note"; py "time"; py "dist"] /\
  (check_final_cols columns = Raise ValueError <->
   py "Total items" ∉ columns \/ py "Note" ∉ columns \/ py "time" ∉ columns \/
   py "dist" ∉ columns) /\
  (check_final_cols columns = Ok tt <->
   py "Total items" ∈ columns /\ py "Note" ∈ columns /\ py "time" ∈ columns /\
   py "dist" ∈ columns).
Proof. params.
  intros H1 H2 H3 H4 H5 H6 H7.
  assert (missing_cols columns
          = filter (fun col => col ∉ columns)
                   [py "Total items"; py "Note"; py "time"; py "dist"]) as Hmissing.
  { unfold missing_cols, final_col_names.
    repeat (rewrite (filter_cons_False (fun col => col ∉ columns)) by tauto).
    done. }
  split; [done|]. unfold check_final_cols. rewrite Hmissing.
  rewrite !filter_cons, filter_nil.
  destruct (decide (py "Total items" ∉ columns)), (decide (py "Note" ∉ columns)),
    (decide (py "time" ∉ columns)), (decide (py "dist" ∉ columns));
    (split; split; try done; try tauto);
    intros _; repeat split; by apply dec_stable.
Qed.

(** ** The text of a count *)

Lemma int_digits_ascii (k : N) (acc : Z) (r : list N) :
  (k < 10)%N -> int_digits acc ((48 + k)%N :: r) = int_digits (10 * acc + Z.of_N k) r.
Proof. params.
  intros Hk. cbn [int_digits]. unfold digit_value, nd_zeros. cbn [digit_in].
  replace ((48 <=? 48 + k)%N && (48 + k <? 48 + 10)%N) with true.
  - by replace (48 + k - 48)%N with k by lia.
  - symmetry. apply andb_true_iff. split; [apply N.leb_le | apply N.ltb_lt]; lia.
Qed.

Lemma int_digits_of_uint_acc (d : Decimal.uint) (acc : positive) :
  int_digits (Z.pos acc) (bytes_of (NilEmpty.string_of_uint d))
  = Some (Z.pos (Pos.of_uint_acc d acc)).
Proof. params.
  revert acc. induction d as [|d IH|d IH|d IH|d IH|d IH|d IH|d IH|d IH|d IH|d IH];
    intros acc; [done|..]; cbn [NilEmpty.string_of_uint bytes_of Pos.of_uint_acc].
  - rewrite (int_digits_ascii 0) by done. rewrite <- IH. f_equal; lia.
  - rewrite (int_digits_ascii 1) by done. rewrite <- IH. f_equal; lia.
  - rewrite (int_digits_ascii 2) by done. rewrite <- IH. f_equal; lia.
  - rewrite (int_digits_ascii 3) by done. rewrite <- IH. f_equal; lia.
  - rewrite (int_digits_ascii 4) by done. rewrite <- IH. f_equal; lia.
  - rewrite (int_digits_ascii 5) by done. rewrite <- IH. f_equal; lia.
  - rewrite (int_digits_ascii 6) by done. rewrite <- IH. f_equal; lia.
  - rewrite (int_digits_ascii 7) by done. rewrite <- IH. f_equal; lia.
  - rewrite (int_digits_ascii 8) by done. rewrite <- IH. f_equal; lia.
  - rewrite (int_digits_ascii 9) by done. rewrite <- IH. f_equal; lia.
Qed.

Lemma int_digits_of_uint (d : Decimal.uint) :
  int_digits 0 (bytes_of (NilEmpty.string_of_uint d)) = Some (Z.of_N (Pos.of_uint d)).
Proof. params.
  induction d as [|d IH|d IH|d IH|d IH|d IH|d IH|d IH|d IH|d IH|d IH];
    [done|..]; cbn [NilEmpty.string_of_uint bytes_of Pos.of_uint].
  - rewrite (int_digits_ascii 0) by done. exact IH.
  - rewrite (int_digits_ascii 1) by done. apply (int_digits_of_uint_acc d 1).
  - rewrite (int_digits_ascii 2) by done. apply (int_digits_of_uint_acc d 2).
  - rewrite (int_digits_ascii 3) by done. apply (int_digits_of_uint_acc d 3).
  - rewrite (int_digits_ascii 4) by done. apply (int_digits_of_uint_acc d 4).
  - rewrite (int_digits_ascii 5) by done. apply (int_digits_of_uint_acc d 5).
  - rewrite (int_digits_ascii 6) by done. apply (int_digits_of_uint_acc d 6).
  - rewrite (int_digits_ascii 7) by done. apply (int_digits_of_uint_acc d 7).
  - rewrite (int_digits_ascii 8) by done. apply (int_digits_of_uint_acc d 8).
  - rewrite (int_digits_ascii 9) by done. apply (int_digits_of_uint_acc d 9).
Qed.

(** The decimal text of a count reads back as the count. *)
Lemma int_digits_str_of_int (z : Z) :
  0 <= z -> int_digits 0 (str_of_int z) = Some z.
Proof. params.
  intros Hz. unfold str_of_int. rewrite int_digits_of_uint.
  change (Pos.of_uint (N.to_uint (Z.to_N z))) with (N.of_uint (N.to_uint (Z.to_N z))).
  rewrite DecimalN.Unsigned.of_to. f_equal. lia.
Qed.

(** X15: in every row of the packing table, Count_New is empty when
    Count is at most 1, and is otherwise the decimal text of Count: read
    back with [int] it gives Count again. *)
Theorem count_new_reads_back (route_df : list (Final.t num)) (df_plist : list Plist.t)
    (packing : list Packing.t) (p : Packing.t) :
  packing_df route_df df_plist = Ok packing ->
  p ∈ packing ->
  (Packing.Count_New p = [] <-> Packing.Count p <= 1) /\
  (1 < Packing.Count p -> astype_int (Some (Packing.Count_New p)) = Ok (Packing.Count p)).
Proof.
  intros (counted & _ & _ & Hperm & _)%packing_df_rows Hp.
  rewrite Hperm in Hp.
  assert (Packing.summed p ∈ sum_counts counted) as Hs.
  { apply (elem_of_merge_packing _ df_plist). by exists p. }
  apply elem_of_sum_counts in Hs as (k & _ & Hs).
  unfold Packing.Count_New, Packing.Count. rewrite Hs.
  cbn [summed_row Summed.Count Summed.Count_New].
  generalize (sum_int64 (snd <$> group_rows (fun rc : Final.t num * Z => packing_key rc.1)
                                   k counted)).
  intros z. unfold count_new. destruct (decide (1 < z)) as [Hz|Hz].
  - pose proof (int_digits_str_of_int z ltac:(lia)) as Hread.
    split.
    + split; [|lia]. intros Hnil. rewrite Hnil in Hread. simpl in Hread.
      injection Hread as <-. lia.
    + intros _. unfold astype_int.
      destruct (str_of_int z) as [|c s] eqn:E.
      * simpl in Hread. injection Hread as <-. lia.
      * by rewrite Hread.
  - split; [split; [lia|done] | lia].
Qed.

End App.

(* ===================================================================== *)
(** * The statements on the sample tables                                 *)
(* ===================================================================== *)

(** C1, counterexample: the item name of 2Organic Apples is not Organic
    Apples (the code drops the three characters 2Or), also with that title
    in the product list. *)
Lemma item_name_counterexample :
  ~ (Final.Lineitem_name
       <$> (process_data ascii_lower
              [sample_route (Some (py "Bob")) (Some (py "2Organic Apples"))]
              [sample_product "Organic Apples" "蔬菜水果类"]).1
     = [Some (py "Organic Apples")]).
Proof. vm_compute. discriminate. Qed.

(** C1, witness of [items_examples]. *)
Lemma items_examples_witness :
  Forall (fun f => Final.Item_Count f = Some (py "2") /\
                   Final.Lineitem_name f = Some (py "ganic Apples") /\
                   Final.Count f = Some (py "2"))
         (process_data ascii_lower
            [sample_route (Some (py "Bob")) (Some (py "2Organic Apples"))]
            [sample_product "Organic Apples" "蔬菜水果类"]).1.
Proof.
  apply (items_examples ascii_lower
           (sample_route (Some (py "Bob")) (Some (py "2Organic Apples")))).
  reflexivity.
Defined.

(** C3, counterexample: with one row whose Items has no digit in front, the
    packing aggregation raises; the null is neither dropped nor counted as
    zero, and the rows with a count are lost with it. *)
Lemma null_count_counterexample :
  ~ exists packing,
      packing_df
        (process_data ascii_lower
           [sample_route (Some (py "Bob")) (Some (py "2x Apples"));
            sample_route (Some (py "Bob")) (Some (py "abcWidget"))] sample_catalog).1
        (process_data ascii_lower
           [sample_route (Some (py "Bob")) (Some (py "2x Apples"));
            sample_route (Some (py "Bob")) (Some (py "abcWidget"))] sample_catalog).2
      = Ok packing.
Proof. intros [packing H]. vm_compute in H. discriminate. Qed.

(** C3, witness of [null_count_raises]. *)
Lemma null_count_raises_witness :
  generate exact_sum xlsx_integer ascii_lower accept_all keep_footer
    [sample_route (Some (py "Bob")) (Some (py "abcWidget"))] sample_catalog
  = Raise ValueError.
Proof.
  refine (proj2 (proj2 (proj2
    (null_count_raises exact_sum xlsx_integer ascii_lower accept_all keep_footer
       [sample_route (Some (py "Bob")) (Some (py "abcWidget"))] sample_catalog
       (sample_route (Some (py "Bob")) (Some (py "abcWidget"))) (py "abcWidget")
       _ _ _)))).
  - left.
  - reflexivity.
  - change (str_slice_to 3 (py "abcWidget")) with [97; 98; 99]%N.
    repeat (apply Forall_cons; split; [vm_compute; reflexivity|]). constructor.
Defined.

(** C4, counterexample: a route row without any partner leaves the row
    count unchanged, though its item name is not the title of exactly one
    product. *)
Lemma merge_exactly_one_counterexample :
  length (merge_routes [sample_item "Pears"] []) = length [sample_item "Pears"] /\
  ~ (forall r, r ∈ [sample_item "Pears"] -> length (partners [] r) = 1%nat).
Proof.
  split; [reflexivity|]. intros H.
  specialize (H (sample_item "Pears") ltac:(left)). discriminate.
Qed.

(** C5, counterexample.  The first address of the table is not blank, and
    after lines 22-27 the address of the row is the empty text: it began
    with a comma.  And a table that is not empty and whose first row has no
    driver keeps the blank after the fill. *)
Lemma forward_fill_counterexample :
  ~ blank (Route.Address sample_comma_route) /\
  Forall (fun r => blank (Route.Address r)) (filled [sample_comma_route]) /\
  [sample_blank_route (Some (py "2x Apples")); sample_route (Some (py "Bob")) None] <> [] /\
  Exists (fun r => blank (Route.Driver r))
         (filled [sample_blank_route (Some (py "2x Apples"));
                  sample_route (Some (py "Bob")) None]).
Proof.
  split; [intros [H|H]; discriminate|].
  split; [repeat constructor; right; reflexivity|].
  split; [discriminate|].
  apply Exists_cons_hd. left. reflexivity.
Qed.

(** C5, witness of [forward_fill_no_blank]: no row of the sample week has a
    blank driver or a blank address after the fill. *)
Lemma forward_fill_no_blank_witness :
  Forall (fun r => ~ blank (Route.Driver r)) (filled sample_week) /\
  Forall (fun r => ~ blank (Route.Address r)) (filled sample_week).
Proof.
  pose proof (forward_fill_no_blank
                (sample_route (Some (py "Bob")) (Some (py "2x Apples")))
                [sample_blank_route (Some (py "3x Apples"));
                 sample_route (Some (py "Al")) (Some (py "1x Pears"))])
    as ((_ & Hdriver & _) & (_ & Haddress) & _).
  split.
  - apply Hdriver.
    + intros [H|H]; discriminate.
    + repeat (apply Forall_cons; split; [discriminate|]). constructor.
  - apply Haddress.
    + intros [H|H]; discriminate.
    + apply Forall_cons; split;
        [intros a [= <-]; split; intros H; vm_compute in H; discriminate|].
      apply Forall_cons; split; [intros a H; discriminate H|].
      apply Forall_cons; split;
        [intros a [= <-]; split; intros H; vm_compute in H; discriminate|].
      constructor.
Defined.

(** C7, counterexample: with a title listed twice in the product list, the
    packing rows of Bob count 8 items where his merged route rows count 4. *)
Lemma packing_count_counterexample :
  exists packing,
    packing_df
      (process_data ascii_lower
         [sample_route (Some (py "Bob")) (Some (py "2x Apples"))] sample_catalog_twice).1
      (process_data ascii_lower
         [sample_route (Some (py "Bob")) (Some (py "2x Apples"))] sample_catalog_twice).2
    = Ok packing /\
    sumZ (Packing.Count <$> filter (fun p => Packing.Driver p = py "Bob") packing) = 8 /\
    sumZ (count_of <$> filter (fun f => Final.Driver f = Some (py "Bob"))
            (process_data ascii_lower
               [sample_route (Some (py "Bob")) (Some (py "2x Apples"))]
               sample_catalog_twice).1) = 4.
Proof. eexists. split; [vm_compute; reflexivity|]. split; vm_compute; reflexivity. Qed.

(** C7, witness of [packing_count_conserving]. *)
Lemma packing_count_conserving_witness :
  exists packing,
    packing_df (process_data ascii_lower sample_week sample_catalog).1
               (process_data ascii_lower sample_week sample_catalog).2 = Ok packing /\
    sumZ (Packing.Count <$> filter (fun p => Packing.Driver p = py "Bob") packing) = 5.
Proof.
  destruct (packing_df (process_data ascii_lower sample_week sample_catalog).1
                       (process_data ascii_lower sample_week sample_catalog).2)
    as [packing|e] eqn:E; [|vm_compute in E; discriminate].
  exists packing. split; [reflexivity|].
  destruct (packing_count_conserving ascii_lower sample_week sample_catalog packing
              (py "Bob") E) as [Hsum _].
  - vm_compute. reflexivity.
  - intros f Hf _. vm_compute in Hf.
    repeat (apply elem_of_cons in Hf as [->|Hf]);
      [..|by apply elem_of_nil in Hf]; vm_compute; lia.
  - rewrite Hsum. vm_compute. reflexivity.
Defined.

(** C10, witness of [sheets_in_driver_order]: Bob comes first in the file,
    Al first in both workbooks. *)
Lemma sheets_in_driver_order_witness :
  exists routing packing,
    generate exact_sum xlsx_integer ascii_lower accept_all keep_footer
      sample_week sample_catalog = Ok (routing, packing) /\
    title <$> routing = [py "Al"; py "Bob"] /\
    title <$> packing = [py "Al"; py "Bob"].
Proof.
  destruct (generate exact_sum xlsx_integer ascii_lower accept_all keep_footer
              sample_week sample_catalog)
    as [[routing packing]|e] eqn:E; [|vm_compute in E; discriminate].
  exists routing, packing. split; [reflexivity|].
  destruct (sheets_in_driver_order exact_sum xlsx_integer ascii_lower accept_all
              keep_footer sample_week
              sample_catalog routing packing E) as (_ & Hsame & Hnames & _).
  rewrite <- Hsame. split; (rewrite Hnames; [by vm_compute|]); vm_compute; discriminate.
Defined.




Lemma address_without_comma_witness :
  44%N ∉ py "12 Main St".
Proof.
  apply (address_without_comma ascii_lower sample_week sample_catalog
           sample_final).
  - vm_compute. right. right. left.
  - vm_compute. reflexivity.
Defined.

Lemma count_blank_iff_one_witness :
  (Final.Count sample_final = Some []
   <-> Final.Item_Count sample_final = Some (py "1")) /\
  (Final.Item_Count sample_final <> Some (py "1") ->
   Final.Count sample_final = Final.Item_Count sample_final).
Proof.
  apply (count_blank_iff_one ascii_lower sample_week sample_catalog).
  vm_compute. right. right. left.
Defined.

(** [ascii_lower] lower-cases the letters A to Z and keeps every other
    character: it is of the kind [determine_product_type_priority] asks
    for. *)
Lemma ascii_lower_keeps_ideographs : lower_keeps_ideographs ascii_lower.
Proof.
  intros s. exists ((fun c => [if ((65 <=? c) && (c <=? 90))%N then (c + 32)%N else c]) <$> s).
  split.
  - unfold ascii_lower. induction s as [|c s IH]; [done|].
    rewrite !fmap_cons. cbn [concat app]. by rewrite IH.
  - induction s as [|c s IH]; [constructor|].
    rewrite fmap_cons. constructor; [|exact IH].
    unfold lowered, ideograph.
    destruct ((65 <=? c) && (c <=? 90))%N eqn:Ec.
    + apply andb_true_iff in Ec as [H1%N.leb_le H2%N.leb_le].
      replace ((19968 <=? c) && (c <=? 40959))%N with false
        by (symmetry; apply andb_false_iff; left; apply N.leb_gt; lia).
      split; [done|]. constructor; [|constructor].
      apply andb_false_iff. left. apply N.leb_gt. lia.
    + destruct ((19968 <=? c) && (c <=? 40959))%N eqn:Ei; [done|].
      split; [done|]. by constructor.
Qed.

(** C2, witness of [determine_product_type_priority]: a tag with letters of
    both cases, the chilled and the ambient keyword is cool. *)
Lemma determine_product_type_priority_witness :
  determine_product_type ascii_lower (Some (py "Fresh 常温类 冰冻冷藏类 ABC")) = py "cool".
Proof.
  destruct (determine_product_type_priority ascii_lower (py "Fresh 常温类 冰冻冷藏类 ABC")
              ascii_lower_keeps_ideographs) as (_ & Hcool & _).
  apply Hcool.
  - intros [H|H]; revert H; apply contains_false; reflexivity.
  - apply contains_spec. reflexivity.
Defined.

(** [filled_row] on the second row of the sample week, whose cells are
    blank: it takes driver and address from the row above, and its note
    stays blank. *)
Lemma filled_row_witness :
  exists r', filled sample_week !! 1%nat = Some r' /\
             Route.Driver r' = Some (py "Bob") /\
             Route.Address r' = Some (py "12 Main St") /\
             Route.Items r' = Some (py "3x Apples") /\
             Route.Note r' = None.
Proof.
  destruct (filled_row sample_week 1 (sample_blank_route (Some (py "3x Apples"))))
    as (r' & Hr' & _ & Hdriver & _ & _ & Haddress & Hitems & Hnote & _).
  - reflexivity.
  - exists r'. split; [exact Hr'|].
    rewrite Hdriver, Haddress, Hitems, Hnote. vm_compute. done.
Defined.

(** [item_count_three_digits] on the third row of the sample week. *)
Lemma item_count_three_digits_witness :
  (1 <= length (py "1") <= 3)%nat /\
  Forall (fun c => is_digit c = true) (py "1") /\
  exists z, astype_int (Some (py "1")) = Ok z /\ 0 <= z <= 999.
Proof.
  apply (item_count_three_digits ascii_lower sample_week sample_catalog sample_final).
  - vm_compute. right. right. left.
  - reflexivity.
Defined.



(** [report_rows_conserved] on the sample week. *)
Lemma report_rows_conserved_witness :
  exists routing packing,
    generate exact_sum xlsx_integer ascii_lower accept_all keep_footer
      sample_week sample_catalog = Ok (routing, packing) /\
    concat (data_rows <$> routing)
    ≡ₚ routing_row xlsx_integer <$> filter (fun f => is_Some (Final.Driver f))
                         (process_data ascii_lower sample_week sample_catalog).1.
Proof.
  destruct (generate exact_sum xlsx_integer ascii_lower accept_all keep_footer
              sample_week sample_catalog)
    as [[routing packing]|e] eqn:E; [|vm_compute in E; discriminate].
  exists routing, packing. split; [reflexivity|].
  exact (proj1 (report_rows_conserved exact_sum xlsx_integer ascii_lower accept_all
                  keep_footer sample_week
                  sample_catalog routing packing E)).
Defined.

(** [packing_row_counts] on the sample week. *)
Lemma packing_row_counts_witness :
  exists packing,
    packing_df (process_data ascii_lower sample_week sample_catalog).1
               (process_data ascii_lower sample_week sample_catalog).2 = Ok packing /\
    forall p, p ∈ packing ->
      Packing.Count p
      = sumZ (count_of <$>
                filter (fun f => Final.Driver f = Some (Packing.Driver p) /\
                                 Final.Lineitem_name f = Some (Packing.Lineitem_name p))
                       (process_data ascii_lower sample_week sample_catalog).1).
Proof.
  destruct (packing_df (process_data ascii_lower sample_week sample_catalog).1
                       (process_data ascii_lower sample_week sample_catalog).2)
    as [packing|e] eqn:E; [|vm_compute in E; discriminate].
  exists packing. split; [reflexivity|].
  apply (packing_row_counts ascii_lower sample_week sample_catalog packing E).
  vm_compute. reflexivity.
Defined.

(** [packing_rows_unique] on the sample week. *)
Lemma packing_rows_unique_witness :
  exists packing,
    packing_df (process_data ascii_lower sample_week sample_catalog).1
               (process_data ascii_lower sample_week sample_catalog).2 = Ok packing /\
    NoDup ((fun p => (Packing.Driver p, Packing.Lineitem_name p)) <$> packing).
Proof.
  destruct (packing_df (process_data ascii_lower sample_week sample_catalog).1
                       (process_data ascii_lower sample_week sample_catalog).2)
    as [packing|e] eqn:E; [|vm_compute in E; discriminate].
  exists packing. split; [reflexivity|].
  apply (packing_rows_unique ascii_lower sample_week sample_catalog packing E).
  refine (bool_decide_unpack _ _). vm_compute. exact I.
Defined.

(** [unknown_items_last] on the sample week and a product list without
    pears: the pears of Al have no product type. *)
Lemma unknown_items_last_witness :
  exists packing p,
    packing_df (process_data ascii_lower sample_week sample_catalog_apples).1
               (process_data ascii_lower sample_week sample_catalog_apples).2
    = Ok packing /\
    packing !! 0%nat = Some p /\
    Packing.Lineitem_name p = py "Pears" /\
    Packing.Product_type p = None /\
    Packing.Variant_SKU p = None /\ Packing.Vendor p = None.
Proof.
  destruct (packing_df (process_data ascii_lower sample_week sample_catalog_apples).1
                       (process_data ascii_lower sample_week sample_catalog_apples).2)
    as [packing|e] eqn:E; [|vm_compute in E; discriminate].
  destruct (packing !! 0%nat) as [p|] eqn:Hp;
    [|vm_compute in E; injection E as <-; discriminate Hp].
  exists packing, p. split; [reflexivity|]. split; [exact Hp|].
  destruct (unknown_items_last ascii_lower sample_week sample_catalog_apples packing 0 p
              E Hp) as [Hunknown Hlast].
  assert (Packing.Lineitem_name p = py "Pears") as Hname.
  { vm_compute in E. injection E as <-. by injection Hp as <-. }
  assert (Packing.Product_type p = None) as Htype.
  { apply Hunknown. rewrite Hname. intros y Hy. vm_compute in Hy.
    apply list_elem_of_singleton in Hy as ->. vm_compute. discriminate. }
  destruct (Hlast Htype) as (Hsku & Hvendor & _). done.
Defined.

(** [header_whitespace_ignored] on a header with spaces around the name
    of the note column. *)
Lemma header_whitespace_ignored_witness :
  clean_columns [py "Driver"; py "  Note (Order) "] !! 1%nat = Some (py "Note").
Proof.
  apply (header_whitespace_ignored [py "Driver"; py "  Note (Order) "] 1
           (py "  ") (py "Note (Order)") (py " ")).
  - reflexivity.
  - repeat constructor.
  - repeat constructor.
  - intros c [= <-]. reflexivity.
  - intros c [= <-]. reflexivity.
Defined.

(** [missing_cols_of_input] on a table without Total items and dist. *)
Lemma missing_cols_of_input_witness :
  missing_cols [py "Driver"; py "Stop"; py "Shipping name"; py "Address"; py "Note";
                py "time"; py "Items"; py "Lineitem name"; py "Item Count"; py "Count"]
  = [py "Total items"; py "dist"] /\
  check_final_cols [py "Driver"; py "Stop"; py "Shipping name"; py "Address"; py "Note";
                    py "time"; py "Items"; py "Lineitem name"; py "Item Count"; py "Count"]
  = Raise ValueError.
Proof.
  destruct (missing_cols_of_input
              [py "Driver"; py "Stop"; py "Shipping name"; py "Address"; py "Note";
               py "time"; py "Items"; py "Lineitem name"; py "Item Count"; py "Count"])
    as (Hmissing & Hraise & _);
    try (refine (bool_decide_unpack _ _); vm_compute; exact I).
  split.
  - rewrite Hmissing. vm_compute. reflexivity.
  - apply Hraise. left. refine (bool_decide_unpack _ _). vm_compute. exact I.
Defined.

(** [count_new_reads_back] on the sample week: Bob's five apples. *)
Lemma count_new_reads_back_witness :
  exists packing p,
    packing_df (process_data ascii_lower sample_week sample_catalog).1
               (process_data ascii_lower sample_week sample_catalog).2 = Ok packing /\
    packing !! 1%nat = Some p /\
    Packing.Count p = 5 /\
    astype_int (Some (Packing.Count_New p)) = Ok 5.
Proof.
  destruct (packing_df (process_data ascii_lower sample_week sample_catalog).1
                       (process_data ascii_lower sample_week sample_catalog).2)
    as [packing|e] eqn:E; [|vm_compute in E; discriminate].
  destruct (packing !! 1%nat) as [p|] eqn:Hp;
    [|vm_compute in E; injection E as <-; discriminate Hp].
  exists packing, p. split; [reflexivity|]. split; [exact Hp|].
  destruct (count_new_reads_back _ _ packing p E) as [_ Hread].
  - by eapply list_elem_of_lookup_2.
  - assert (Packing.Count p = 5) as Hcount.
    { vm_compute in E. injection E as <-. by injection Hp as <-. }
    split; [exact Hcount|]. rewrite <- Hcount. apply Hread. rewrite Hcount. done.
Defined.

(** The classifier on ASCII and CJK tags: the keyword wins wherever it
    stands, the first rule that applies decides, and text without keyword,
    the empty text and a missing tag are other. *)
Example classify_samples :
  determine_product_type ascii_lower (Some (py "New, 蔬菜水果类")) = py "vege & fruit" /\
  determine_product_type ascii_lower (Some (py "独家订阅包")) = py "vege & fruit" /\
  determine_product_type ascii_lower (Some (py "常温类, 冰冻冷藏类")) = py "cool" /\
  determine_product_type ascii_lower (Some (py "常温类, 蔬菜水果类")) = py "vege & fruit" /\
  determine_product_type ascii_lower (Some (py "常温类")) = py "general" /\
  determine_product_type ascii_lower (Some (py "Dairy")) = py "other" /\
  determine_product_type ascii_lower (Some []) = py "other" /\
  determine_product_type ascii_lower None = py "other".
Proof. vm_compute. repeat split. Qed.

(** An address that starts with a comma is reduced to the empty text, which
    is a value and no NaN: the fill leaves it. *)
Example address_empty_text :
  Route.Address
    <$> filled [sample_route (Some (py "Bob")) None;
                Route.set_Address (Some (py ", Springfield"))
                  (sample_route (Some (py "Bob")) None)]
  = [Some (py "12 Main St"); Some []].
Proof. reflexivity. Qed.
